(** * SOC dashboard demo: risk scoring and the rolling alert rule

    A shallow embedding of [dashboard.py].  The script is a linear
    Streamlit page; the parts with logic of their own are

    - [calculate_risk_score] and [get_risk_level] (lines 13-47), and
    - the alert rule at the end of the page (lines 208-239), a rolling
      count over the [emulator_detected] events of each group.

    Python integers are modelled by [Z], Python strings by [string], the
    dict [base_scores] by a [gmap], a pandas table by the list of its
    rows in table order, a missing cell (NaN) by [None], and a pandas
    timestamp by the integer it is stored as (nanoseconds since the
    epoch, no time zone).  A Python exception is a value of [result];
    the calls of Streamlit that write to the page are collected in the
    list of widgets that [alert_rule] returns.

    The pandas operations the page calls are modelled by what they
    compute: [sort_values], [groupby] (sorted keys, rows without a key
    dropped) and the time-based [rolling(...).count()], whose windows
    are the blocks of rows of [variable_window_bounds]. *)

From Stdlib Require Import ZArith Lia String List Sorting.Sorted.
From Stdlib Require Import Numbers.DecimalString.
From stdpp Require Import base decidable option list gmap strings sorting.

Local Open Scope string_scope.
Local Open Scope list_scope.
Local Open Scope Z_scope.

(** ** Timestamps *)

Module Time.

(** A [pandas.Timestamp] of a [datetime64[ns]] column: nanoseconds
    since 1970-01-01T00:00:00, naive (no time zone). *)
Abbreviation Timestamp := Z (only parsing).

Definition ns_per_second : Z := 1000000000.
Definition ns_per_minute : Z := 60 * ns_per_second.
Definition ns_per_hour : Z := 60 * ns_per_minute.
Definition ns_per_day : Z := 24 * ns_per_hour.

(** [timestamp.hour]: the hour-of-day field, in [0, 23]. *)
Definition hour (t : Timestamp) : Z := (t `div` ns_per_hour) `mod` 24.

(** The instant [h]:[m]:00 on day number [day] (days since the epoch). *)
Definition at_hm (day h m : Z) : Timestamp :=
  day * ns_per_day + h * ns_per_hour + m * ns_per_minute.

(** [pd.Timedelta(f"{n}min")] in nanoseconds. *)
Definition minutes (n : Z) : Z := n * ns_per_minute.

End Time.

Import Time.

(** ** Risk scoring (lines 13-47) *)

Definition base_scores : gmap string Z :=
  <["root_detected" := 30]>
    (<["hooking_attempt" := 25]>
       (<["emulator_detected" := 20]>
          (<["debugger_attached" := 15]> ∅))).

Definition high_risk_countries : list string := ["USA"; "Germany"].

(** [country in high_risk_countries], a linear scan with [==]. *)
Definition is_high_risk (country : string) : bool :=
  bool_decide (country ∈ high_risk_countries).

(** [hour < 6 or hour > 22] *)
Definition is_off_hours (h : Z) : bool := (h <? 6) || (22 <? h).

Definition calculate_risk_score
    (event country : string) (timestamp : Timestamp) : Z :=
  (* score = base_scores.get(event, 10) *)
  let score := default 10 (base_scores !! event) in
  (* if country in high_risk_countries: score += 10 *)
  let score := if is_high_risk country then score + 10 else score in
  (* hour = timestamp.hour; if hour < 6 or hour > 22: score += 5 *)
  let hour := hour timestamp in
  let score := if is_off_hours hour then score + 5 else score in
  (* return min(score, 100) *)
  score `min` 100.

Definition get_risk_level (score : Z) : string :=
  if 76 <=? score then "Critical"
  else if 51 <=? score then "High"
  else if 26 <=? score then "Medium"
  else "Low".

(** ** Tables *)

(** One row of the event table, with the columns the alert rule reads.
    [read_csv] turns an empty [country] or [device] field into a missing
    value (NaN), modelled by [None]; the page reckons with missing
    devices itself, in the drill-down ([dropna()], line 172). *)
Record Row := mkRow {
  timestamp : Timestamp;
  event : string;
  country : option string;
  device : option string
}.

(** [st.radio("Scope", ["Per country", "Per device"])] *)
Inductive Scope := PerCountry | PerDevice.

(** [group_key = "country" if scope == "Per country" else "device"] *)
Definition group_key (scope : Scope) : string :=
  match scope with PerCountry => "country" | PerDevice => "device" end.

(** The cell of a row in the column named [group_key scope]. *)
Definition column (scope : Scope) (r : Row) : option string :=
  match scope with PerCountry => country r | PerDevice => device r end.

(** Sorting a table in ascending order of a comparison.  [sort_values]
    promises the ascending order only: its default sort need not keep
    rows with equal sort keys in table order.  The model inserts each
    row into the sorted rest, before the first row that is not smaller;
    [alerts_sorted_rows_irrelevant] below shows that the alerts are the
    same for every other arrangement that is sorted by time. *)
Section isort.
Context {A : Type} (leb : A → A → bool).

Fixpoint insert_sorted (x : A) (l : list A) : list A :=
  match l with
  | [] => [x]
  | y :: l' => if leb x y then x :: l else y :: insert_sorted x l'
  end.

Definition isort (l : list A) : list A := foldr insert_sorted [] l.
End isort.

(** [df.sort_values("timestamp")] and [df.sort_values("time")] *)
Definition sort_values {A} (by_ : A → Timestamp) : list A → list A :=
  isort (λ x y, by_ x <=? by_ y).

(** [df.groupby(col)]: the groups in ascending order of their key, each
    group holding the rows of that key in table order.  Rows whose key
    is missing belong to no group ([dropna=True] is the default). *)
Definition group_keys (col : Row → option string) (rows : list Row)
  : list string :=
  isort String.leb (remove_dups (omap col rows)).

Definition groupby (col : Row → option string) (rows : list Row)
  : list (string * list Row) :=
  (λ k, (k, filter (λ r, col r = Some k) rows)) <$> group_keys col rows.

(** ** Errors *)

Inductive exn := ValueError (msg : string).

Inductive result (A : Type) :=
| Ok (a : A)
| Raise (e : exn).
Arguments Ok {A} a.
Arguments Raise {A} e.

#[global] Instance result_ret : MRet result := λ A a, Ok a.

#[global] Instance result_bind : MBind result := λ A B k m,
  match m with Ok a => k a | Raise e => Raise e end.

(** ** The rolling count *)

(** [is_monotonic_increasing] of a time index. *)
Definition ascending (index : list Timestamp) : Prop := Sorted Z.le index.

(** The window bounds of a time-based rolling window, as pandas computes
    them ([calculate_variable_window_bounds]) for the default
    [closed="right"], [center=False] on an ascending index: the window of
    row [i] is the block of rows [start[i] .. end[i] - 1]. *)

(** [for j in range(lo, i): if index[j] - start_bound > 0: return j],
    and [i] when the loop ends without a hit; [candidates] is
    [index[lo:i]]. *)
Fixpoint first_inside (start_bound : Z) (lo : nat) (candidates : list Timestamp)
    (i : nat) : nat :=
  match candidates with
  | [] => i
  | u :: candidates' =>
      if decide (0 < u - start_bound) then lo
      else first_inside start_bound (S lo) candidates' i
  end.

(** The loop over the rows [i = 1, 2, ...], with [start[i-1]] and
    [end[i-1]] from the previous round; [todo] is [index[i:]]. *)
Fixpoint bounds_loop (window : Z) (index : list Timestamp) (i : nat)
    (start_prev end_prev : nat) (todo : list Timestamp) : list (nat * nat) :=
  match todo with
  | [] => []
  | t :: todo' =>
      let end_bound := t in
      let start_bound := t - window in
      let start_i :=
        first_inside start_bound start_prev
          (take (i - start_prev) (drop start_prev index)) i in
      let end_i :=
        match index !! end_prev with
        | Some u => if decide (u - end_bound ≤ 0) then S i else end_prev
        | None => S i
        end in
      (start_i, end_i) :: bounds_loop window index (S i) start_i end_i todo'
  end.

Definition variable_window_bounds (window : Z) (index : list Timestamp)
  : list (nat * nat) :=
  match index with
  | [] => []
  | _ :: todo => (0%nat, 1%nat) :: bounds_loop window index 1 0 1 todo
  end.

(** The values of [series.rolling(window).count()] for a series without
    missing values: the number of rows in each window. *)
Definition window_counts (window : Z) (index : list Timestamp) : list Z :=
  (λ se, Z.of_nat (se.2 - se.1)) <$> variable_window_bounds window index.

(** [g["event"].rolling(f"{window_min}min").count()] for a group [g]
    indexed by [index].  pandas refuses a time index that is not
    monotonic with a [ValueError].  The page sorts by time before it
    groups, so only ascending indexes reach this call
    ([alert_rule_never_raises]); every other index, a descending one
    included, is outside the model and is reported as the error. *)
Definition rolling_count (window_min : Z) (index : list Timestamp)
  : result (list Z) :=
  if decide (ascending index)
  then Ok (window_counts (minutes window_min) index)
  else Raise (ValueError "index must be monotonic").

(** ** The alert rule (lines 208-239) *)

(** The dict appended to [alerts]: its entries are ["time"], ["scope"],
    one entry named after the grouping column, and ["rule"]. *)
Record Alert := mkAlert {
  time : Timestamp;
  scope_name : string;
  key_value : string;
  rule : string
}.

(** [str(n)] for a Python integer. *)
Definition str (n : Z) : string := NilZero.string_of_int (Z.to_int n).

(** [f"Emulator≥{threshold} in {window_min} min"] *)
Definition rule_text (threshold window_min : Z) : string :=
  "Emulator≥" +:+ str threshold +:+ " in " +:+ str window_min +:+ " min".

Definition new_alert (window_min threshold : Z) (scope : Scope)
    (key : string) (t : Timestamp) : Alert :=
  {| time := t;
     scope_name := group_key scope;
     key_value := key;
     rule := rule_text threshold window_min |}.

(** [hits = counts[counts >= threshold]], then [hits.index] *)
Definition hits_index (threshold : Z) (index : list Timestamp)
    (counts : list Z) : list Timestamp :=
  (filter (λ p, threshold ≤ p.2) (zip index counts)).*1.

(** The body of [for key, g in base.groupby(group_key)], threading the
    list [alerts] it appends to. *)
Fixpoint alerts_loop (window_min threshold : Z) (scope : Scope)
    (groups : list (string * list Row)) (alerts : list Alert)
  : result (list Alert) :=
  match groups with
  | [] => Ok alerts
  | (key, g) :: groups' =>
      let index := timestamp <$> g in
      counts ← rolling_count window_min index;
      let hits := hits_index threshold index counts in
      alerts_loop window_min threshold scope groups'
        (alerts ++ (new_alert window_min threshold scope key <$> hits))
  end.

(** What the page shows. *)
Inductive Widget :=
| st_info (body : string)
| st_error (body : string)
| st_success (body : string)
| st_dataframe (data : list Alert).

Definition trigger_events (filtered : list Row) : list Row :=
  filter (λ r, event r = "emulator_detected") filtered.

Definition alert_rule (window_min threshold : Z) (scope : Scope)
    (filtered : list Row) : result (list Widget) :=
  let base := trigger_events filtered in
  match base with
  | [] =>
      Ok [st_info "No emulator_detected events in the current filtered dataset."]
  | _ :: _ =>
      let base := sort_values timestamp base in
      alerts ← alerts_loop window_min threshold scope
                 (groupby (column scope) base) [];
      match alerts with
      | _ :: _ =>
          Ok [st_error ("ALERTS TRIGGERED: " +:+ str (Z.of_nat (length alerts)));
              st_dataframe (sort_values time alerts)]
      | [] => Ok [st_success "No alerts triggered with current rule."]
      end
  end.

(** The alert records on the page. *)
Definition shown_alerts (page : list Widget) : list Alert :=
  page ≫= λ w, match w with st_dataframe data => data | _ => [] end.

(** * Definitions used in the statements *)

(** ** Risk score *)

(** The base score written as the table the documentation gives. *)
Definition base_of (event : string) : Z :=
  if decide (event = "root_detected") then 30
  else if decide (event = "hooking_attempt") then 25
  else if decide (event = "emulator_detected") then 20
  else if decide (event = "debugger_attached") then 15
  else 10.

(** The score before the cap, as the sum the documentation describes. *)
Definition score_sum (event country : string) (timestamp : Timestamp) : Z :=
  base_of event
  + (if decide (country = "USA" ∨ country = "Germany") then 10 else 0)
  + (if decide (hour timestamp < 6 ∨ hour timestamp > 22) then 5 else 0).

(** ** Sorting and grouping *)

(** The order in which [sort_values] leaves a table. *)
Definition by_time {A} (by_ : A → Timestamp) : relation A :=
  λ x y, by_ x ≤ by_ y.

(** The rows of the group with key [k]. *)
Definition group_of (col : Row → option string) (rows : list Row)
    (k : string) : list Row :=
  filter (λ r, col r = Some k) rows.

(** The index of the group of key [k], as the loop sees it. *)
Definition group_index (scope : Scope) (filtered : list Row) (k : string)
  : list Timestamp :=
  timestamp <$> group_of (column scope)
                  (sort_values timestamp (trigger_events filtered)) k.

(** What a row contributes to a result built group by group with [h]:
    nothing when its key is missing. *)
Definition per_row {B} (col : Row → option string) (h : string → Row → B)
    (r : Row) : option B :=
  (λ k, h k r) <$> col r.

(** ** The rolling count *)

(** The count the documentation describes: the number of the group's
    events with timestamp in [(t - window, t]]. *)
Definition count_in_window (window : Z) (index : list Timestamp)
    (t : Timestamp) : Z :=
  Z.of_nat (length (filter (λ u, t - window < u ≤ t) index)).

(** Where the window of row [i] begins on an ascending index. *)
Definition window_start_ok (window : Z) (index : list Timestamp)
    (i s : nat) : Prop :=
  ∃ t, index !! i = Some t
       ∧ (s ≤ i)%nat
       ∧ (∀ j u, index !! j = Some u → (j < s)%nat → u ≤ t - window)
       ∧ (∀ j u, index !! j = Some u → (s ≤ j ≤ i)%nat → t - window < u).

(** ** The alert rule without its error path *)

(** The alerts one group contributes. *)
Definition group_alerts (window_min threshold : Z) (scope : Scope)
    (kg : string * list Row) : list Alert :=
  let index := timestamp <$> kg.2 in
  new_alert window_min threshold scope kg.1
    <$> hits_index threshold index (window_counts (minutes window_min) index).

(** All alerts of the rule, in the order the loop appends them. *)
Definition all_alerts (window_min threshold : Z) (scope : Scope)
    (filtered : list Row) : list Alert :=
  groupby (column scope) (sort_values timestamp (trigger_events filtered))
    ≫= group_alerts window_min threshold scope.

(** The page for a non-empty [base], given the list [alerts]. *)
Definition render (alerts : list Alert) : list Widget :=
  match alerts with
  | _ :: _ =>
      [st_error ("ALERTS TRIGGERED: " +:+ str (Z.of_nat (length alerts)));
       st_dataframe (sort_values time alerts)]
  | [] => [st_success "No alerts triggered with current rule."]
  end.

(** The alert of one event: none when its grouping key is missing. *)
Definition row_alert (window_min threshold : Z) (scope : Scope) (r : Row)
  : option Alert :=
  per_row (column scope)
    (λ k r, new_alert window_min threshold scope k (timestamp r)) r.

(** ** Inputs *)

(** The three events of the scenario, on any day and with any country. *)
Definition scenario (day : Z) (c1 c2 c3 : option string) : list Row :=
  [mkRow (at_hm day 10 0) "emulator_detected" c1 (Some "A");
   mkRow (at_hm day 10 2) "emulator_detected" c2 (Some "A");
   mkRow (at_hm day 10 4) "emulator_detected" c3 (Some "A")].

(** Two events of device A at the same instant. *)
Definition tie_rows : list Row :=
  [mkRow (at_hm 0 10 0) "emulator_detected" (Some "USA") (Some "A");
   mkRow (at_hm 0 10 0) "emulator_detected" (Some "USA") (Some "A")].

(** An event of the trigger type whose device is missing. *)
Definition keyless_rows : list Row :=
  [mkRow (at_hm 0 10 0) "emulator_detected" (Some "USA") None].

(** * The rest of the page *)

(** ** Derived columns (lines 10, 52-53) *)

(** [df["timestamp"].dt.date], as the number of the day since the epoch. *)
Definition date_col (r : Row) : Z := timestamp r `div` ns_per_day.

(** [cell in values] for a cell that may be missing: a NaN is a float
    and equals no string. *)
Definition cell_in (cell : option string) (values : list string) : bool :=
  match cell with
  | Some v => bool_decide (v ∈ values)
  | None => false
  end.

(** [calculate_risk_score(row["event"], row["country"], row["timestamp"])],
    the body of the function run on the cells of a row, of which the
    country may be missing. *)
Definition risk_score_col (r : Row) : Z :=
  let score := default 10 (base_scores !! event r) in
  let score :=
    if cell_in (country r) high_risk_countries then score + 10 else score in
  let hour := hour (timestamp r) in
  let score := if is_off_hours hour then score + 5 else score in
  score `min` 100.

(** [df["risk_score"].apply(get_risk_level)] *)
Definition risk_level_col (r : Row) : string :=
  get_risk_level (risk_score_col r).

(** ** The sidebar (lines 77-99) *)

Inductive type_error := TypeError.

(** [sorted(df[col].unique())] (lines 83-85) for a column of strings
    with missing cells.  [unique()] gives each value once, and one NaN
    for all missing cells; [sorted] orders with [<], which raises a
    [TypeError] between a string and a float.  With two values or more,
    one of them NaN, every sort has to compare the NaN with a string. *)
Definition sorted_unique (cells : list (option string))
  : type_error + list (option string) :=
  let values := remove_dups cells in
  match values with
  | [] | [_] => inr values
  | _ :: _ :: _ =>
      if decide (None ∈ values) then inl TypeError
      else inr (Some <$> isort String.leb (omap id values))
  end.

(** [sorted(df["risk_level"].unique())], a column without missing cells. *)
Definition risk_options (df : list Row) : list string :=
  isort String.leb (remove_dups (risk_level_col <$> df)).

(** [df["date"].min()] and [df["date"].max()]: no value on an empty
    table. *)
Definition min_date (df : list Row) : option Z :=
  match date_col <$> df with
  | [] => None
  | d :: ds => Some (foldr Z.min d ds)
  end.

Definition max_date (df : list Row) : option Z :=
  match date_col <$> df with
  | [] => None
  | d :: ds => Some (foldr Z.max d ds)
  end.

(** What the widgets of the sidebar return: the tuple of
    [st.date_input], the lists of the three [st.multiselect], and the
    dict [optional_filters] as the list of its items. *)
Record Selection := mkSelection {
  date_range : list Z;
  event_sel : list string;
  country_sel : list (option string);
  risk_sel : list string;
  optional_filters : list (string * list string)
}.

(** ** The global filters (lines 101-115) *)

(** [if selected: filtered = filtered[filtered[col].isin(selected)]] *)
Definition filter_isin {A} `{EqDecision A} (col : Row → A)
    (selected : list A) (filtered : list Row) : list Row :=
  match selected with
  | [] => filtered
  | _ :: _ => filter (λ r, col r ∈ selected) filtered
  end.

(** [Row] does not record the optional columns ([package],
    [app_version], ...); [cell col r] stands for the cell of row [r] in
    the optional column [col], [None] when it is missing. *)
Definition apply_filters (cell : string → Row → option string)
    (sel : Selection) (df : list Row) : list Row :=
  (* filtered = df.copy() *)
  let filtered := df in
  (* if isinstance(date_range, tuple) and len(date_range) == 2: ... *)
  let filtered :=
    match date_range sel with
    | [start; end_] =>
        filter (λ r, start ≤ date_col r ∧ date_col r ≤ end_) filtered
    | _ => filtered
    end in
  let filtered := filter_isin event (event_sel sel) filtered in
  let filtered := filter_isin country (country_sel sel) filtered in
  let filtered := filter_isin risk_level_col (risk_sel sel) filtered in
  (* for col, selected in optional_filters.items(): ... *)
  foldl (λ filtered cs, filter_isin (cell cs.1) (Some <$> cs.2) filtered)
        filtered (optional_filters sel).

(** The rows a selection asks for. *)
Definition selected_by (cell : string → Row → option string)
    (sel : Selection) (r : Row) : Prop :=
  (∀ start end_, date_range sel = [start; end_] →
                 start ≤ date_col r ∧ date_col r ≤ end_)
  ∧ (event_sel sel = [] ∨ event r ∈ event_sel sel)
  ∧ (country_sel sel = [] ∨ country r ∈ country_sel sel)
  ∧ (risk_sel sel = [] ∨ risk_level_col r ∈ risk_sel sel)
  ∧ Forall (λ cs : string * list string,
              cs.2 = [] ∨ ∃ v, cell cs.1 r = Some v ∧ v ∈ cs.2)
           (optional_filters sel).

(** ** The figures and the charts (lines 117-155) *)

(** [(filtered['risk_level']=='Critical').sum()] *)
Definition critical_risk (filtered : list Row) : nat :=
  length (filter (λ r, risk_level_col r = "Critical") filtered).

(** [filtered.groupby(col).size()]: the size of each group, in the
    order of the keys. *)
Definition group_sizes (col : Row → option string) (rows : list Row)
  : list (string * nat) :=
  (λ kg, (kg.1, length kg.2)) <$> groupby col rows.

(** [series.sort_values(ascending=False)] for a series of counts.  As
    for [sort_values], the order among equal counts is not promised. *)
Definition sort_counts_descending (counts : list (string * nat))
  : list (string * nat) :=
  isort (λ a b, (b.2 <=? a.2)%nat) counts.


(** [filtered[col].value_counts()]: the number of rows of each value,
    missing cells left out, the largest count first. *)
Definition value_counts (col : Row → option string) (rows : list Row)
  : list (string * nat) :=
  sort_counts_descending (group_sizes col rows).


(** [vc_country], line 134 *)
Definition events_by_country (filtered : list Row) : list (string * nat) :=
  sort_counts_descending (value_counts country filtered).

(** [risk_dist], line 139 *)
Definition risk_distribution (filtered : list Row) : list (string * nat) :=
  value_counts (λ r, Some (risk_level_col r)) filtered.

(** [geo_counts], line 145; [None] when the map is not drawn. *)
Definition geo_counts (filtered : list Row) : option (list (string * nat)) :=
  match filtered with
  | [] => None
  | _ :: _ => Some (group_sizes country filtered)
  end.

(** ** The drill-down by device (lines 169-194) *)

(** [sorted(filtered["device"].dropna().unique())] *)
Definition device_options (filtered : list Row) : list string :=
  group_keys device filtered.

(** What [st.selectbox] can return: one of the options, and [None] when
    there is none. *)
Definition selectbox_returns (options : list string)
    (value : option string) : Prop :=
  match options with
  | [] => value = None
  | _ :: _ => ∃ d, value = Some d ∧ d ∈ options
  end.

Inductive DrillWidget :=
| dd_info (body : string)
| dd_caption (body : string)
| dd_scatter (data : list Row)
| dd_dataframe (data : list Row).

(** [filtered["device"] == sel_device]: no cell equals [None]. *)
Definition device_is (sel_device : option string) (r : Row) : Prop :=
  is_Some sel_device ∧ device r = sel_device.

#[global] Instance device_is_dec sel_device r : Decision (device_is sel_device r).
Proof. unfold device_is. apply _. Defined.

Definition drill_down (sel_device : option string) (filtered : list Row)
  : list DrillWidget :=
  match filtered with
  | [] => [dd_info "No data to drill down."]
  | _ :: _ =>
      let dev_df :=
        sort_values timestamp (filter (device_is sel_device) filtered) in
      dd_caption (str (Z.of_nat (length dev_df)) +:+ " events for: "
                  +:+ default "None" sel_device)
      :: match dev_df with
         | _ :: _ => [dd_scatter dev_df; dd_dataframe dev_df]
         | [] => [dd_info "No events for the selected device."]
         end
  end.

(** The pair an alert stands for: the time and the key of an event. *)
Definition alert_event (a : Alert) : Timestamp * string :=
  (time a, key_value a).

(** * Lemmas *)

(** ** Facts about the risk score *)

Lemma base_scores_get (event : string) :
  default 10 (base_scores !! event) = base_of event.
Proof.
  unfold base_scores, base_of.
  repeat (case_decide;
          [ subst event; rewrite ?lookup_insert_eq; reflexivity
          | rewrite lookup_insert_ne by congruence ]).
  rewrite lookup_empty. reflexivity.
Qed.

Lemma base_of_range (event : string) : 10 <= base_of event <= 30.
Proof. unfold base_of. repeat case_decide; lia. Qed.

Lemma hour_range (t : Timestamp) : 0 <= hour t < 24.
Proof. unfold hour. apply Z.mod_pos_bound. lia. Qed.

Lemma hour_at_hm (day h m : Z) :
  0 <= h < 24 → 0 <= m < 60 → hour (at_hm day h m) = h.
Proof.
  intros Hh Hm. unfold hour, at_hm, ns_per_day, ns_per_hour.
  replace (day * (24 * (60 * ns_per_minute)) + h * (60 * ns_per_minute)
           + m * ns_per_minute)
    with ((day * 24 + h) * (60 * ns_per_minute) + m * ns_per_minute) by ring.
  unfold ns_per_minute, ns_per_second.
  rewrite Z.div_add_l, (Z.div_small (m * _)) by lia.
  rewrite Z.add_0_r, Z.add_comm, Z.mod_add by lia.
  apply Z.mod_small. lia.
Qed.

Lemma is_high_risk_spec (country : string) :
  is_high_risk country = true <-> country = "USA" \/ country = "Germany".
Proof.
  unfold is_high_risk, high_risk_countries.
  rewrite bool_decide_eq_true, !elem_of_cons, elem_of_nil. tauto.
Qed.

(** ** Facts about sorting *)

Section isort_facts.
Context {A : Type} (leb : A → A → bool) (R : relation A).
Hypothesis leb_spec : ∀ x y, leb x y = true ↔ R x y.

Lemma insert_sorted_Permutation (x : A) (l : list A) :
  insert_sorted leb x l ≡ₚ x :: l.
Proof using Type.
  induction l as [|y l IH]; simpl; [done|].
  destruct (leb x y); [done|].
  rewrite IH. apply Permutation_swap.
Qed.

Lemma isort_Permutation (l : list A) : isort leb l ≡ₚ l.
Proof using Type.
  induction l as [|x l IH]; simpl; [done|].
  by rewrite insert_sorted_Permutation, IH.
Qed.

Lemma isort_sorted_id (l : list A) : Sorted R l → isort leb l = l.
Proof using leb_spec.
  induction 1 as [|x l Hl IH Hhd]; simpl; [done|].
  rewrite IH. destruct Hhd as [|y l' Hxy]; simpl; [done|].
  apply leb_spec in Hxy. by rewrite Hxy.
Qed.

Context `{!Total R, !Transitive R}.

Lemma insert_sorted_StronglySorted (x : A) (l : list A) :
  StronglySorted R l → StronglySorted R (insert_sorted leb x l).
Proof using All.
  induction 1 as [|y l Hl IH Hy]; simpl.
  - repeat constructor.
  - destruct (leb x y) eqn:Hxy.
    + apply leb_spec in Hxy.
      constructor; [by constructor|].
      constructor; [done|].
      eapply Forall_impl; [exact Hy|]. intros z Hz. by transitivity y.
    + constructor; [done|].
      rewrite insert_sorted_Permutation. constructor; [|done].
      destruct (total R x y) as [Hc|Hc]; [|done].
      apply leb_spec in Hc. congruence.
Qed.

Lemma isort_StronglySorted (l : list A) : StronglySorted R (isort leb l).
Proof using All.
  induction l as [|x l IH]; simpl; [constructor|].
  by apply insert_sorted_StronglySorted.
Qed.
End isort_facts.

#[global] Instance by_time_total {A} (by_ : A → Timestamp) : Total (by_time by_).
Proof. intros x y. unfold by_time. lia. Qed.

#[global] Instance by_time_trans {A} (by_ : A → Timestamp) :
  Transitive (by_time by_).
Proof. intros x y z. unfold by_time. lia. Qed.

Lemma sort_values_Permutation {A} (by_ : A → Timestamp) (l : list A) :
  sort_values by_ l ≡ₚ l.
Proof. apply isort_Permutation. Qed.

Lemma sort_values_sorted {A} (by_ : A → Timestamp) (l : list A) :
  StronglySorted (by_time by_) (sort_values by_ l).
Proof.
  apply isort_StronglySorted; [|apply _..].
  intros x y. apply Z.leb_le.
Qed.

Lemma sort_values_sorted_id {A} (by_ : A → Timestamp) (l : list A) :
  Sorted (by_time by_) l → sort_values by_ l = l.
Proof. apply isort_sorted_id. intros x y. apply Z.leb_le. Qed.

(** ** Facts about grouping *)

Lemma group_keys_NoDup (col : Row → option string) (rows : list Row) :
  NoDup (group_keys col rows).
Proof.
  unfold group_keys. rewrite isort_Permutation. apply NoDup_remove_dups.
Qed.

Lemma elem_of_group_keys (col : Row → option string) (rows : list Row) k :
  k ∈ group_keys col rows ↔ ∃ r, r ∈ rows ∧ col r = Some k.
Proof.
  unfold group_keys.
  by rewrite isort_Permutation, elem_of_remove_dups, list_elem_of_omap.
Qed.

Lemma StronglySorted_filter {A} (R : relation A) (P : A → Prop)
    `{!∀ x, Decision (P x)} (l : list A) :
  StronglySorted R l → StronglySorted R (filter P l).
Proof.
  induction 1 as [|x l Hl IH Hx]; [constructor|].
  rewrite filter_cons. case_decide; [|done].
  constructor; [done|].
  apply Forall_forall. intros y [_ Hy]%list_elem_of_filter.
  by eapply Forall_forall in Hx.
Qed.

(** Every group of a table sorted by time has an ascending index. *)
Lemma group_index_ascending (P : Row → Prop) `{!∀ r, Decision (P r)}
    (rows : list Row) :
  StronglySorted (by_time timestamp) rows →
  ascending (timestamp <$> filter P rows).
Proof.
  intros Hs. apply StronglySorted_Sorted.
  eapply (StronglySorted_fmap _ (by_time timestamp)); [by intros x y|].
  by apply StronglySorted_filter.
Qed.

(** ** The loop without its error path *)

Lemma alerts_loop_ok window_min threshold scope groups alerts :
  Forall (λ kg : string * list Row, ascending (timestamp <$> kg.2)) groups →
  alerts_loop window_min threshold scope groups alerts
  = Ok (alerts ++ (groups ≫= group_alerts window_min threshold scope)).
Proof.
  intros Hg. revert alerts.
  induction Hg as [|[key g] groups Hasc _ IH]; intros alerts; simpl.
  - by rewrite app_nil_r.
  - unfold rolling_count. simpl in Hasc. rewrite decide_True by done.
    simpl. rewrite IH, <-app_assoc. done.
Qed.

(** The rule never raises: the sort before the loop makes every index
    that reaches [rolling] ascending. *)
Lemma alert_rule_nonempty window_min threshold scope filtered :
  trigger_events filtered ≠ [] →
  alert_rule window_min threshold scope filtered
  = Ok (render (all_alerts window_min threshold scope filtered)).
Proof.
  intros Hne. unfold alert_rule, all_alerts.
  destruct (trigger_events filtered) as [|r base] eqn:Hbase; [done|].
  rewrite alerts_loop_ok.
  - simpl. by destruct (_ ≫= _).
  - unfold groupby. apply Forall_fmap, Forall_forall. intros k _.
    apply group_index_ascending, sort_values_sorted.
Qed.

Lemma shown_alerts_render (alerts : list Alert) :
  shown_alerts (render alerts) = sort_values time alerts.
Proof.
  destruct alerts as [|a alerts]; [done|].
  unfold render, shown_alerts. simpl. by rewrite app_nil_r.
Qed.

(** ** Facts about the rolling count *)

Lemma filter_ext_elem_of {A} (P Q : A → Prop)
    `{!∀ x, Decision (P x), !∀ x, Decision (Q x)} (l : list A) :
  (∀ x, x ∈ l → P x ↔ Q x) → filter P l = filter Q l.
Proof.
  induction l as [|x l IH]; intros HPQ; [done|].
  rewrite !filter_cons, IH by (intros y Hy; apply HPQ; by right).
  destruct (decide (P x)) as [HP|HP], (decide (Q x)) as [HQ|HQ]; try done;
    exfalso; apply (HPQ x) in HP || apply (HPQ x) in HQ; done || by left.
Qed.

Lemma filter_none {A} (P : A → Prop) `{!∀ x, Decision (P x)} (l : list A) :
  Forall (λ x, ¬ P x) l → filter P l = [].
Proof.
  induction 1 as [|x l Hx _ IH]; [done|].
  by rewrite filter_cons_False.
Qed.

Lemma filter_all {A} (P : A → Prop) `{!∀ x, Decision (P x)} (l : list A) :
  Forall P l → filter P l = l.
Proof.
  induction 1 as [|x l Hx _ IH]; [done|].
  by rewrite filter_cons_True, IH.
Qed.

Lemma ascending_lookup_le (index : list Timestamp) i j a b :
  ascending index → index !! i = Some a → index !! j = Some b →
  (i ≤ j)%nat → a ≤ b.
Proof.
  intros Hs%Sorted_StronglySorted; [|apply _]. revert i j.
  induction Hs as [|x l Hl IH Hx]; intros i j Hi Hj Hij; [done|].
  destruct i as [|i], j as [|j]; simpl in *; simplify_eq; try lia.
  - eapply Forall_forall in Hx; [exact Hx|]. by eapply list_elem_of_lookup_2.
  - eapply IH; eauto with lia.
Qed.

(** [first_inside] stops at the first candidate after the bound. *)
Lemma first_inside_spec start_bound lo candidates i :
  i = (lo + length candidates)%nat →
  (lo ≤ first_inside start_bound lo candidates i ≤ i)%nat
  ∧ (∀ j u, candidates !! j = Some u →
            (lo + j < first_inside start_bound lo candidates i)%nat →
            u ≤ start_bound)
  ∧ ((first_inside start_bound lo candidates i < i)%nat →
     ∃ u, candidates !! (first_inside start_bound lo candidates i - lo)%nat
          = Some u
          ∧ start_bound < u).
Proof.
  revert lo i.
  induction candidates as [|u candidates IH]; intros lo i ->; simpl.
  - split; [lia|]. split; [done|lia].
  - case_decide as Hu.
    + split; [lia|]. split; [intros; lia|].
      intros _. exists u. rewrite Nat.sub_diag. split; [done|lia].
    + destruct (IH (S lo) (lo + S (length candidates))%nat)
        as (Hs & Hbefore & Hat); [lia|].
      set (s := first_inside start_bound (S lo) candidates
                  (lo + S (length candidates))) in *.
      split; [lia|]. split.
      * intros [|j] v Hv Hj; simplify_eq/=; [lia|].
        eapply Hbefore; [done|]. lia.
      * intros Hlt. destruct (Hat Hlt) as (v & Hv & Hbv). exists v.
        split; [|done].
        replace (s - lo)%nat with (S (s - S lo)) by lia. done.
Qed.

Lemma first_inside_step window index i s' t' :
  ascending index → 0 < window →
  window_start_ok window index i s' →
  index !! S i = Some t' →
  window_start_ok window index (S i)
    (first_inside (t' - window) s'
       (take (S i - s') (drop s' index)) (S i)).
Proof.
  intros Hasc HW (t & Hi & Hle & Hbefore & Hafter) Hi'.
  set (cands := take (S i - s') (drop s' index)).
  assert (S i < length index)%nat as Hlen by by eapply lookup_lt_Some.
  assert (length cands = (S i - s')%nat) as Hclen
    by (unfold cands; rewrite length_take, length_drop; lia).
  assert (∀ j, (j < S i - s')%nat → cands !! j = index !! (s' + j)%nat)
    as Hcands
    by (intros j Hj; unfold cands; by rewrite lookup_take_lt, lookup_drop).
  destruct (first_inside_spec (t' - window) s' cands (S i))
    as (Hs & Hlow & Hat); [lia|].
  fold cands.
  set (s := first_inside (t' - window) s' cands (S i)) in *.
  assert (t ≤ t') by (eapply (ascending_lookup_le index i (S i)); eauto).
  exists t'. split; [done|]. split; [lia|]. split.
  - intros j u Hj Hjs. destruct (decide (j < s')%nat) as [Hlt|Hge].
    + specialize (Hbefore j u Hj Hlt). lia.
    + apply (Hlow (j - s')%nat); [|lia].
      rewrite Hcands by lia. by replace (s' + (j - s'))%nat with j by lia.
  - intros j u Hj Hjs. destruct (decide (s < S i)%nat) as [Hlt|Hge].
    + destruct (Hat Hlt) as (v & Hv & Hbv).
      rewrite Hcands in Hv by lia.
      replace (s' + (s - s'))%nat with s in Hv by lia.
      assert (v ≤ u) by (eapply (ascending_lookup_le index s j); eauto; lia).
      lia.
    + assert (j = S i) as -> by lia. simplify_eq. lia.
Qed.

Lemma bounds_loop_lookup window index i start_prev todo k t :
  ascending index → 0 < window →
  drop (S i) index = todo →
  window_start_ok window index i start_prev →
  todo !! k = Some t →
  ∃ s, bounds_loop window index (S i) start_prev (S i) todo !! k
       = Some (s, S (S i + k))
       ∧ window_start_ok window index (S i + k) s.
Proof.
  intros Hasc HW. revert i start_prev k.
  induction todo as [|t' todo IH]; intros i start_prev k Hdrop Hok Hk; [done|].
  assert (index !! S i = Some t') as Hi'.
  { rewrite <-(Nat.add_0_r (S i)), <-lookup_drop, Hdrop. done. }
  simpl. rewrite Hi'. rewrite decide_True by lia.
  pose proof (first_inside_step window index i start_prev t' Hasc HW Hok Hi')
    as Hstep.
  set (s1 := first_inside (t' - window) start_prev
               (take (S i - start_prev) (drop start_prev index)) (S i)) in *.
  destruct k as [|k]; simpl.
  - exists s1. by rewrite Nat.add_0_r.
  - destruct (IH (S i) s1 k) as (s & Hs & Hsok); [|done|done|].
    + by rewrite <-(Nat.add_1_r (S i)), <-drop_drop, Hdrop.
    + exists s. replace (S (i + S k))%nat with (S (S i) + k)%nat by lia.
      done.
Qed.

Lemma variable_window_bounds_lookup window index i t :
  ascending index → 0 < window →
  index !! i = Some t →
  ∃ s, variable_window_bounds window index !! i = Some (s, S i)
       ∧ window_start_ok window index i s.
Proof.
  intros Hasc HW Hi. destruct index as [|t0 todo]; [done|].
  assert (window_start_ok window (t0 :: todo) 0 0) as H0.
  { exists t0. split; [done|]. split; [lia|]. split; [intros; lia|].
    intros [|j] u Hu Hj; simplify_eq/=; lia. }
  destruct i as [|i]; simpl.
  - by exists 0%nat.
  - simpl in Hi.
    destruct (bounds_loop_lookup window (t0 :: todo) 0 0 todo i t)
      as (s & Hs & Hsok); try done.
    by exists s.
Qed.

Lemma length_bounds_loop window index i start_prev end_prev todo :
  length (bounds_loop window index i start_prev end_prev todo) = length todo.
Proof.
  revert i start_prev end_prev.
  induction todo as [|t todo IH]; intros i start_prev end_prev; [done|].
  simpl. by rewrite IH.
Qed.

Lemma length_window_counts window index :
  length (window_counts window index) = length index.
Proof.
  unfold window_counts. rewrite length_fmap.
  destruct index as [|t todo]; [done|]. simpl. by rewrite length_bounds_loop.
Qed.

(** On an ascending index the rows of the window of row [i] are the
    rows at positions [0..i] with index after [t - window]; rows after
    position [i] are not in the window, whatever their index. *)
Lemma window_counts_lookup window index i t :
  ascending index → 0 < window →
  index !! i = Some t →
  window_counts window index !! i
  = Some (Z.of_nat (length (filter (λ u, t - window < u)
                                   (take (S i) index)))).
Proof.
  intros Hasc HW Hi.
  destruct (variable_window_bounds_lookup window index i t)
    as (s & Hs & t' & Hi' & Hle & Hbefore & Hafter); [done..|].
  simplify_eq. unfold window_counts. rewrite list_lookup_fmap, Hs. simpl.
  do 2 f_equal.
  assert (S i ≤ length index)%nat by by eapply lookup_lt_Some.
  rewrite <-(take_drop s (take (S i) index)), filter_app.
  rewrite filter_none, filter_all.
  - simpl. rewrite length_drop, length_take. lia.
  - apply Forall_forall. intros u [j Hj]%list_elem_of_lookup.
    rewrite lookup_drop in Hj. apply lookup_take_Some in Hj as [Hj Hlt].
    eapply Hafter; [done|lia].
  - apply Forall_forall. intros u [j Hj]%list_elem_of_lookup.
    apply lookup_take_Some in Hj as [Hj Hlt].
    apply lookup_take_Some in Hj as [Hj _].
    specialize (Hbefore j u Hj Hlt). lia.
Qed.

(** On an ascending index the window reaches back from the row itself:
    the rows counted are the rows up to position [i] with timestamp in
    [(t - window, t]]. *)
Lemma window_counts_trailing window index i t :
  ascending index → 0 < window → index !! i = Some t →
  window_counts window index !! i
  = Some (count_in_window window (take (S i) index) t).
Proof.
  intros Hs HW Hi. rewrite (window_counts_lookup _ _ _ t) by done.
  unfold count_in_window. do 3 f_equal.
  apply filter_ext_elem_of. intros u [j Hj]%list_elem_of_lookup.
  apply lookup_take_Some in Hj as [Hj Hlt].
  assert (u ≤ t) by (eapply (ascending_lookup_le index j i); eauto with lia).
  lia.
Qed.

(** Rows after position [i] are never counted; they would be by the
    documentation's count exactly when they carry the timestamp [t]. *)
Lemma window_counts_no_later_tie window index i t :
  ascending index → 0 < window → index !! i = Some t →
  (∀ j, (i < j)%nat → index !! j ≠ Some t) →
  window_counts window index !! i = Some (count_in_window window index t).
Proof.
  intros Hs HW Hi Hlater. rewrite (window_counts_trailing _ _ _ t) by done.
  unfold count_in_window. do 3 f_equal.
  rewrite <-(take_drop (S i) index) at 2.
  rewrite filter_app, (filter_none _ (drop (S i) index)), app_nil_r; [done|].
  apply Forall_forall. intros u [j Hj]%list_elem_of_lookup.
  rewrite lookup_drop in Hj.
  assert (t ≤ u)
    by (eapply (ascending_lookup_le index i (S i + j)); eauto with lia).
  assert (u ≠ t) by (intros ->; eapply (Hlater (S i + j)%nat); [lia|done]).
  lia.
Qed.

(** The row itself is always in its window. *)
Lemma window_counts_pos window index :
  ascending index → 0 < window →
  Forall (λ c, 1 ≤ c) (window_counts window index).
Proof.
  intros Hasc HW. apply Forall_lookup. intros i c Hc.
  destruct (lookup_lt_is_Some_2 index i) as [t Hi].
  { rewrite <-(length_window_counts window). by eapply lookup_lt_Some. }
  rewrite (window_counts_lookup _ _ _ t) in Hc by done. simplify_eq.
  rewrite (take_S_r _ _ t), filter_app, length_app by done.
  rewrite filter_cons_True by lia. simpl. lia.
Qed.

(** A group whose events all lie within one window of each other: the
    counts are [1, 2, ..., n]. *)
Lemma window_counts_dense window index :
  ascending index → 0 < window →
  (∀ u t, u ∈ index → t ∈ index → t - window < u) →
  window_counts window index
  = (λ i, Z.of_nat (S i)) <$> seq 0 (length index).
Proof.
  intros Hasc HW Hd. apply list_eq. intros i.
  rewrite list_lookup_fmap.
  destruct (index !! i) as [t|] eqn:Hi.
  - rewrite (window_counts_lookup _ _ _ t) by done.
    assert (i < length index)%nat as Hlt by by eapply lookup_lt_Some.
    rewrite lookup_seq_lt by done. simpl. do 2 f_equal.
    rewrite filter_all.
    + rewrite length_take. lia.
    + apply Forall_forall. intros u (j & Hj & _)%elem_of_take.
      apply Hd; by eapply list_elem_of_lookup_2.
  - apply lookup_ge_None in Hi.
    rewrite lookup_seq_ge by done.
    apply lookup_ge_None. by rewrite length_window_counts.
Qed.

(** ** Facts about the hits *)

Lemma hits_index_cons threshold t index c counts :
  hits_index threshold (t :: index) (c :: counts)
  = if decide (threshold ≤ c)
    then t :: hits_index threshold index counts
    else hits_index threshold index counts.
Proof.
  unfold hits_index. simpl. rewrite filter_cons. simpl. by case_decide.
Qed.

Lemma hits_index_all threshold index counts :
  length counts = length index →
  Forall (λ c, threshold ≤ c) counts →
  hits_index threshold index counts = index.
Proof.
  intros Hlen Hall. revert index Hlen.
  induction Hall as [|c counts Hc _ IH]; intros [|t index] Hlen;
    simplify_eq/=; [done|].
  rewrite hits_index_cons, decide_True by done. f_equal. by apply IH.
Qed.

(** With counts [k+1, k+2, ...] the hits are a suffix of the index. *)
Lemma hits_index_from threshold index (k : nat) :
  1 ≤ threshold →
  hits_index threshold index
    ((λ i, Z.of_nat (S i)) <$> seq k (length index))
  = drop (Z.to_nat (threshold - 1) - k) index.
Proof.
  intros Hth. revert k.
  induction index as [|t index IH]; intros k; simpl.
  - by rewrite drop_nil.
  - rewrite hits_index_cons, IH. case_decide as Hk.
    + replace (Z.to_nat (threshold - 1) - k)%nat with 0%nat by lia.
      replace (Z.to_nat (threshold - 1) - S k)%nat with 0%nat by lia.
      done.
    + replace (Z.to_nat (threshold - 1) - k)%nat
        with (S (Z.to_nat (threshold - 1) - S k)) by lia.
      done.
Qed.

(** The alerts of a group whose events lie within one window of each
    other: one for each event from the [threshold]-th on. *)
Lemma minutes_pos window_min : 1 ≤ window_min → 0 < minutes window_min.
Proof. unfold minutes, ns_per_minute, ns_per_second. lia. Qed.

Lemma group_alerts_dense window_min threshold scope key (g : list Row) :
  ascending (timestamp <$> g) →
  1 ≤ window_min →
  1 ≤ threshold →
  (∀ r1 r2, r1 ∈ g → r2 ∈ g →
     timestamp r2 - minutes window_min < timestamp r1) →
  group_alerts window_min threshold scope (key, g)
  = new_alert window_min threshold scope key
      <$> drop (Z.to_nat (threshold - 1)) (timestamp <$> g).
Proof.
  intros Hasc HW Hth Hd. unfold group_alerts. simpl.
  rewrite window_counts_dense.
  - by rewrite hits_index_from, Nat.sub_0_r.
  - done.
  - by apply minutes_pos.
  - intros u t (r1 & -> & Hr1)%list_elem_of_fmap (r2 & -> & Hr2)%list_elem_of_fmap.
    by apply Hd.
Qed.

(** With threshold 1 every event of a group is a hit. *)
Lemma group_alerts_threshold_1 window_min scope key (g : list Row) :
  ascending (timestamp <$> g) →
  1 ≤ window_min →
  group_alerts window_min 1 scope (key, g)
  = new_alert window_min 1 scope key ∘ timestamp <$> g.
Proof.
  intros Hasc HW. unfold group_alerts. simpl.
  rewrite hits_index_all.
  - by rewrite <-list_fmap_compose.
  - apply length_window_counts.
  - apply window_counts_pos; [done|]. by apply minutes_pos.
Qed.

(** ** Facts about the groups *)

Lemma groupby_bind {B} (col : Row → option string) (rows : list Row)
    (f : string * list Row → list B) :
  groupby col rows ≫= f
  = group_keys col rows ≫= λ k, f (k, group_of col rows k).
Proof. unfold groupby. by rewrite list_fmap_bind. Qed.

Lemma bind_ext_elem_of {A B} (f g : A → list B) (l : list A) :
  (∀ x, x ∈ l → f x = g x) → l ≫= f = l ≫= g.
Proof.
  induction l as [|x l IH]; intros Hfg; [done|].
  rewrite !bind_cons, IH, (Hfg x); [done|by left|].
  intros y Hy. apply Hfg. by right.
Qed.

Section per_row.
Context {B : Type} (col : Row → option string) (h : string → Row → B).

Lemma bind_groups_skip (keys : list string) r rows :
  col r = None →
  (keys ≫= λ k, h k <$> group_of col (r :: rows) k)
  = (keys ≫= λ k, h k <$> group_of col rows k).
Proof.
  intros Hr. apply bind_ext_elem_of. intros k _.
  unfold group_of. rewrite filter_cons_False; [done|congruence].
Qed.

Lemma bind_groups_cons (keys : list string) r rows k0 :
  NoDup keys → k0 ∈ keys → col r = Some k0 →
  (keys ≫= λ k, h k <$> group_of col (r :: rows) k)
  ≡ₚ h k0 r :: (keys ≫= λ k, h k <$> group_of col rows k).
Proof.
  intros Hnd Hin Hr.
  induction Hnd as [|k ks Hk Hks IH]; [by apply elem_of_nil in Hin|].
  rewrite !bind_cons. destruct (decide (k = k0)) as [->|Hne].
  - unfold group_of at 1. rewrite filter_cons_True by done. simpl.
    apply perm_skip, Permutation_app; [done|].
    apply reflexive_eq, bind_ext_elem_of. intros k' Hk'.
    unfold group_of. rewrite filter_cons_False; [done|].
    intros ?; simplify_eq. done.
  - apply elem_of_cons in Hin as [?|Hin]; [done|].
    rewrite (IH Hin). unfold group_of at 1.
    rewrite filter_cons_False by (intros ?; simplify_eq; done).
    by rewrite Permutation_middle.
Qed.

(** Grouping loses the rows without a key and nothing else. *)
Lemma groupby_bind_Permutation (rows : list Row) :
  (groupby col rows ≫= λ kg, h kg.1 <$> kg.2) ≡ₚ omap (per_row col h) rows.
Proof.
  rewrite groupby_bind. simpl.
  assert (∀ r k, r ∈ rows → col r = Some k → k ∈ group_keys col rows)
    as Hkeys by (intros r k ??; apply elem_of_group_keys; eauto).
  pose proof (group_keys_NoDup col rows) as Hnd.
  revert Hkeys Hnd. generalize (group_keys col rows) as keys.
  induction rows as [|r rows IH]; intros keys Hkeys Hnd.
  - simpl. clear. induction keys as [|k keys IH]; [done|].
    by rewrite bind_cons, IH.
  - simpl. unfold per_row at 1. destruct (col r) as [k0|] eqn:Hr; simpl.
    + rewrite (bind_groups_cons keys r rows k0); [|done| |done].
      * f_equiv. apply IH; [|done]. intros r' k ??. eapply Hkeys; [|done].
        by right.
      * eapply Hkeys; [|done]. by left.
    + rewrite bind_groups_skip by done. apply IH; [|done].
      intros r' k ??. eapply Hkeys; [|done]. by right.
Qed.
End per_row.

Lemma group_alerts_key window_min threshold scope kg :
  Forall (λ a, key_value a = kg.1)
         (group_alerts window_min threshold scope kg).
Proof. unfold group_alerts. by apply Forall_fmap, Forall_forall. Qed.

(** The alerts that carry the key [k] are those of the group of [k]. *)
Lemma filter_key_all_alerts window_min threshold scope filtered k :
  filter (λ a, key_value a = k)
         (all_alerts window_min threshold scope filtered)
  = group_alerts window_min threshold scope
      (k, group_of (column scope)
            (sort_values timestamp (trigger_events filtered)) k).
Proof.
  unfold all_alerts. rewrite groupby_bind.
  set (rows := sort_values timestamp (trigger_events filtered)).
  set (G := λ k', group_alerts window_min threshold scope
                    (k', group_of (column scope) rows k')).
  change (filter (λ a, key_value a = k) (group_keys (column scope) rows ≫= G)
          = G k).
  assert (filter (λ a, key_value a = k) (group_keys (column scope) rows ≫= G)
          = if decide (k ∈ group_keys (column scope) rows) then G k else [])
    as ->.
  { pose proof (group_keys_NoDup (column scope) rows) as Hnd.
    induction Hnd as [|k' ks Hk' _ IH]; [done|].
    rewrite bind_cons, filter_app, IH.
    pose proof (group_alerts_key window_min threshold scope
                  (k', group_of (column scope) rows k')) as Hkey.
    destruct (decide (k' = k)) as [->|Hne].
    - rewrite filter_all by done.
      rewrite (decide_True (P := k ∈ k :: ks)) by by left.
      rewrite decide_False by done. by rewrite app_nil_r.
    - rewrite filter_none
        by (eapply Forall_impl; [exact Hkey|]; simpl; congruence).
      simpl. destruct (decide (k ∈ ks)).
      + rewrite decide_True; [done|by right].
      + rewrite decide_False; [done|]. by intros [?|?]%elem_of_cons. }
  case_decide as Hin; [done|].
  unfold G, group_of. rewrite filter_none; [done|].
  apply Forall_forall. intros r Hr Hcol. apply Hin.
  apply elem_of_group_keys. eauto.
Qed.

(** ** The order of the rows does not matter

    [sort_values] uses a sort that need not keep rows with equal
    timestamps in table order.  The alerts do not depend on it: they are
    the same for every arrangement of the rows that is sorted by time. *)

Lemma string_leb_trans (s1 s2 s3 : string) :
  String.leb s1 s2 = true → String.leb s2 s3 = true →
  String.leb s1 s3 = true.
Proof.
  unfold String.leb. revert s2 s3.
  induction s1 as [|a1 s1 IH]; intros [|a2 s2] [|a3 s3]; simpl; try done.
  unfold Ascii.compare.
  destruct (N.compare_spec (Ascii.N_of_ascii a1) (Ascii.N_of_ascii a2)),
    (N.compare_spec (Ascii.N_of_ascii a2) (Ascii.N_of_ascii a3)),
    (N.compare_spec (Ascii.N_of_ascii a1) (Ascii.N_of_ascii a3));
    try done; try lia; eauto.
Qed.

Lemma group_keys_Permutation (col : Row → option string) rows1 rows2 :
  rows1 ≡ₚ rows2 → group_keys col rows1 = group_keys col rows2.
Proof.
  intros Hp. unfold group_keys.
  set (R := λ x y : string, String.leb x y = true).
  assert (Total R) by (intros x y; apply String.leb_total).
  assert (Transitive R) by (intros x y z; apply string_leb_trans).
  assert (AntiSymm (=) R) by (intros x y; apply String.leb_antisym).
  apply (StronglySorted_unique R).
  - by apply isort_StronglySorted.
  - by apply isort_StronglySorted.
  - rewrite !isort_Permutation.
    apply NoDup_Permutation; [apply NoDup_remove_dups..|].
    intros k. by rewrite !elem_of_remove_dups, Hp.
Qed.

Lemma group_index_Permutation (P : Row → Prop) `{!∀ r, Decision (P r)}
    rows1 rows2 :
  rows1 ≡ₚ rows2 →
  StronglySorted (by_time timestamp) rows1 →
  StronglySorted (by_time timestamp) rows2 →
  timestamp <$> filter P rows1 = timestamp <$> filter P rows2.
Proof.
  intros Hp Hs1 Hs2. apply (StronglySorted_unique Z.le).
  - eapply (StronglySorted_fmap _ (by_time timestamp)); [by intros x y|].
    by apply StronglySorted_filter.
  - eapply (StronglySorted_fmap _ (by_time timestamp)); [by intros x y|].
    by apply StronglySorted_filter.
  - by rewrite Hp.
Qed.

Lemma alerts_sorted_rows_irrelevant window_min threshold scope rows1 rows2 :
  rows1 ≡ₚ rows2 →
  StronglySorted (by_time timestamp) rows1 →
  StronglySorted (by_time timestamp) rows2 →
  groupby (column scope) rows1 ≫= group_alerts window_min threshold scope
  = groupby (column scope) rows2 ≫= group_alerts window_min threshold scope.
Proof.
  intros Hp Hs1 Hs2.
  rewrite !groupby_bind, (group_keys_Permutation _ rows1 rows2) by done.
  apply bind_ext_elem_of. intros k _. unfold group_alerts, group_of. simpl.
  by rewrite (group_index_Permutation _ rows1 rows2).
Qed.

(** The alerts depend on the table only through its rows, not their
    order. *)
Lemma all_alerts_Permutation window_min threshold scope filtered1 filtered2 :
  filtered1 ≡ₚ filtered2 →
  all_alerts window_min threshold scope filtered1
  = all_alerts window_min threshold scope filtered2.
Proof.
  intros Hp. unfold all_alerts.
  apply alerts_sorted_rows_irrelevant; [|apply sort_values_sorted..].
  rewrite !sort_values_Permutation. unfold trigger_events. by rewrite Hp.
Qed.

(** * Properties of the risk score *)

Lemma calculate_risk_score_sum (event country : string) (ts : Timestamp) :
  calculate_risk_score event country ts = score_sum event country ts `min` 100.
Proof.
  unfold calculate_risk_score, score_sum. rewrite base_scores_get.
  destruct (is_high_risk country) eqn:Hc, (is_off_hours (hour ts)) eqn:Hh.
  all: try apply is_high_risk_spec in Hc as Hc'.
  all: try (assert (¬ (country = "USA" ∨ country = "Germany")) as Hc'
              by (rewrite <-is_high_risk_spec; congruence)).
  all: unfold is_off_hours in Hh.
  all: repeat case_decide; try done; try lia.
Qed.

Lemma score_sum_range (event country : string) (ts : Timestamp) :
  10 ≤ score_sum event country ts ≤ 45.
Proof.
  unfold score_sum. pose proof (base_of_range event).
  repeat case_decide; lia.
Qed.

(** C2: the score is the base score of the event type (30, 25, 20, 15,
    and 10 for any other string), plus 10 for a country in
    {"USA", "Germany"}, plus 5 for an hour before 6 or after 22, capped
    at 100 by a minimum. *)
Theorem C2_risk_score_formula (e c : string) (ts : Timestamp) :
  calculate_risk_score e c ts
  = ((if decide (e = "root_detected") then 30
      else if decide (e = "hooking_attempt") then 25
      else if decide (e = "emulator_detected") then 20
      else if decide (e = "debugger_attached") then 15
      else 10)
     + (if decide (c = "USA" ∨ c = "Germany") then 10 else 0)
     + (if decide (hour ts < 6 ∨ hour ts > 22) then 5 else 0)) `min` 100.
Proof. apply calculate_risk_score_sum. Qed.

(** C3: the level is Low exactly for scores up to 25, Medium exactly for
    26 to 50, High exactly for 51 to 75 and Critical exactly from 76 on;
    in particular at the boundaries 25, 26, 50, 51, 75, 76 and 100. *)
Theorem C3_risk_level_partition (s : Z) :
  (get_risk_level s = "Low" ↔ s ≤ 25)
  ∧ (get_risk_level s = "Medium" ↔ 26 ≤ s ≤ 50)
  ∧ (get_risk_level s = "High" ↔ 51 ≤ s ≤ 75)
  ∧ (get_risk_level s = "Critical" ↔ 76 ≤ s)
  ∧ get_risk_level 0 = "Low" ∧ get_risk_level 25 = "Low"
  ∧ get_risk_level 26 = "Medium" ∧ get_risk_level 50 = "Medium"
  ∧ get_risk_level 51 = "High" ∧ get_risk_level 75 = "High"
  ∧ get_risk_level 76 = "Critical" ∧ get_risk_level 100 = "Critical".
Proof.
  unfold get_risk_level.
  repeat split; try reflexivity;
    destruct (76 <=? s) eqn:H76, (51 <=? s) eqn:H51, (26 <=? s) eqn:H26;
    try discriminate; try reflexivity; lia.
Qed.

(** C5: every risk score lies between 10 and 100. *)
Theorem C5_risk_score_bounds (e c : string) (ts : Timestamp) :
  10 ≤ calculate_risk_score e c ts ≤ 100.
Proof.
  rewrite calculate_risk_score_sum. pose proof (score_sum_range e c ts). lia.
Qed.

(** C6: with the event type and the timestamp fixed, a high-risk country
    scores exactly 10 more than a country that is not high-risk, up to
    the cap at 100; with the event type and the country fixed, an
    off-hours timestamp scores exactly 5 more than an in-hours one, up
    to the cap at 100.  In both cases the score strictly increases. *)
Theorem C6_bonus_monotone (e : string)
    (c c_low c_high : string) (ts t_in t_off : Timestamp) :
  c_low ∉ high_risk_countries →
  c_high ∈ high_risk_countries →
  6 ≤ hour t_in ≤ 22 →
  hour t_off < 6 ∨ 22 < hour t_off →
  (calculate_risk_score e c_low ts < calculate_risk_score e c_high ts
   ∧ calculate_risk_score e c_high ts
     = (calculate_risk_score e c_low ts + 10) `min` 100)
  ∧ (calculate_risk_score e c t_in < calculate_risk_score e c t_off
     ∧ calculate_risk_score e c t_off
       = (calculate_risk_score e c t_in + 5) `min` 100).
Proof.
  intros Hlow Hhigh Hin Hoff.
  unfold high_risk_countries in Hlow, Hhigh.
  rewrite !elem_of_cons, elem_of_nil in Hlow, Hhigh.
  rewrite !calculate_risk_score_sum. unfold score_sum.
  pose proof (base_of_range e).
  repeat case_decide; try tauto; lia.
Qed.

Lemma C6_bonus_monotone_witness :
  (calculate_risk_score "root_detected" "France" (at_hm 0 12 0)
   < calculate_risk_score "root_detected" "USA" (at_hm 0 12 0)
   ∧ calculate_risk_score "root_detected" "USA" (at_hm 0 12 0)
     = (calculate_risk_score "root_detected" "France" (at_hm 0 12 0) + 10)
         `min` 100)
  ∧ (calculate_risk_score "root_detected" "USA" (at_hm 0 12 0)
     < calculate_risk_score "root_detected" "USA" (at_hm 0 23 30)
     ∧ calculate_risk_score "root_detected" "USA" (at_hm 0 23 30)
       = (calculate_risk_score "root_detected" "USA" (at_hm 0 12 0) + 5)
           `min` 100).
Proof.
  apply (C6_bonus_monotone "root_detected" "USA" "France" "USA"
           (at_hm 0 12 0) (at_hm 0 12 0) (at_hm 0 23 30)).
  - unfold high_risk_countries. rewrite !elem_of_cons, elem_of_nil.
    by intros [?|[?|[]]].
  - by left.
  - vm_compute. split; discriminate.
  - right. vm_compute. reflexivity.
Defined.

(** C9: with the configuration of the page the score never exceeds 45, so
    the cap at 100 never applies and the level is always Low or Medium. *)
Theorem C9_score_at_most_45 (e c : string) (ts : Timestamp) :
  calculate_risk_score e c ts ≤ 45
  ∧ calculate_risk_score e c ts = score_sum e c ts
  ∧ score_sum e c ts < 100
  ∧ (get_risk_level (calculate_risk_score e c ts) = "Low"
     ∨ get_risk_level (calculate_risk_score e c ts) = "Medium")
  ∧ get_risk_level (calculate_risk_score e c ts) ≠ "High"
  ∧ get_risk_level (calculate_risk_score e c ts) ≠ "Critical".
Proof.
  rewrite calculate_risk_score_sum.
  pose proof (score_sum_range e c ts) as Hr.
  rewrite Z.min_l by lia. unfold get_risk_level.
  destruct (76 <=? score_sum e c ts) eqn:H76; [lia|].
  destruct (51 <=? score_sum e c ts) eqn:H51; [lia|].
  destruct (26 <=? score_sum e c ts) eqn:H26;
    repeat split; try lia; try discriminate; auto.
Qed.

(** C10: the score depends on the timestamp only through its hour: two
    timestamps with the same hour of day give the same score. *)
Theorem C10_score_depends_on_hour_only (e c : string) (t1 t2 : Timestamp) :
  hour t1 = hour t2 →
  calculate_risk_score e c t1 = calculate_risk_score e c t2.
Proof. intros Hh. unfold calculate_risk_score. by rewrite Hh. Qed.

Lemma C10_score_depends_on_hour_only_witness :
  calculate_risk_score "hooking_attempt" "Germany" (at_hm 0 3 15)
  = calculate_risk_score "hooking_attempt" "Germany" (at_hm 19000 3 59 + 7).
Proof.
  apply (C10_score_depends_on_hour_only "hooking_attempt" "Germany"
           (at_hm 0 3 15) (at_hm 19000 3 59 + 7)).
  vm_compute. reflexivity.
Defined.

(** * Properties of the alert rule *)

(** The rule never raises, whatever the table and the settings. *)
Lemma alert_rule_never_raises window_min threshold scope filtered :
  ∃ page, alert_rule window_min threshold scope filtered = Ok page.
Proof.
  destruct (trigger_events filtered) as [|r base] eqn:Hbase.
  - eexists. unfold alert_rule. by rewrite Hbase.
  - eexists. apply alert_rule_nonempty. by rewrite Hbase.
Qed.

(** C8: when no event of the trigger type is left, the rule ends
    normally for every window, threshold and scope: it raises nothing
    and shows a notice, with no alert. *)
Theorem C8_empty_input_no_alerts
    (window_min threshold : Z) (scope : Scope) (filtered : list Row) :
  trigger_events filtered = [] →
  alert_rule window_min threshold scope filtered
  = Ok [st_info "No emulator_detected events in the current filtered dataset."]
  ∧ ∀ page, alert_rule window_min threshold scope filtered = Ok page →
            shown_alerts page = [].
Proof.
  intros Hbase. unfold alert_rule. rewrite Hbase.
  split; [done|]. by intros page [= <-].
Qed.

Lemma C8_empty_input_no_alerts_witness :
  alert_rule 5 10 PerCountry
    [mkRow (at_hm 0 10 0) "root_detected" (Some "USA") (Some "A")]
  = Ok [st_info "No emulator_detected events in the current filtered dataset."]
  ∧ ∀ page,
      alert_rule 5 10 PerCountry
        [mkRow (at_hm 0 10 0) "root_detected" (Some "USA") (Some "A")]
      = Ok page →
      shown_alerts page = [].
Proof.
  apply (C8_empty_input_no_alerts 5 10 PerCountry
           [mkRow (at_hm 0 10 0) "root_detected" (Some "USA") (Some "A")]).
  vm_compute. reflexivity.
Defined.

Lemma scenario_all_alerts day c1 c2 c3 threshold :
  1 ≤ threshold →
  all_alerts 5 threshold PerDevice (scenario day c1 c2 c3)
  = new_alert 5 threshold PerDevice "A"
      <$> drop (Z.to_nat (threshold - 1))
               [at_hm day 10 0; at_hm day 10 2; at_hm day 10 4].
Proof.
  intros Hth. unfold all_alerts.
  change (trigger_events (scenario day c1 c2 c3)) with (scenario day c1 c2 c3).
  assert (Sorted (by_time timestamp) (scenario day c1 c2 c3)) as Hsorted.
  { unfold scenario, by_time, at_hm, ns_per_day, ns_per_hour, ns_per_minute,
      ns_per_second.
    repeat constructor; simpl; lia. }
  rewrite sort_values_sorted_id by done.
  change (groupby (column PerDevice) (scenario day c1 c2 c3))
    with [("A", scenario day c1 c2 c3)].
  rewrite bind_cons, app_nil_r, group_alerts_dense; [done| |done..|].
  - by eapply Sorted_fmap; [|exact Hsorted].
  - unfold scenario. intros r1 r2 Hr1 Hr2.
    rewrite !elem_of_cons, elem_of_nil in Hr1, Hr2.
    unfold at_hm, minutes, ns_per_day, ns_per_hour, ns_per_minute,
      ns_per_second in *.
    destruct Hr1 as [->|[->|[->|[]]]], Hr2 as [->|[->|[->|[]]]]; simpl; lia.
Qed.

Lemma group_index_is_ascending scope filtered k :
  ascending (group_index scope filtered k).
Proof. apply group_index_ascending, sort_values_sorted. Qed.

(** C1, as stated, fails on its last sentence: of two events of one
    group at the same instant, the first has count 1, though both lie in
    the window (t - 5 min, t] of the first. *)
Lemma C1_count_tie_counterexample :
  group_index PerDevice tie_rows "A" = [at_hm 0 10 0; at_hm 0 10 0]
  ∧ window_counts (minutes 5) (group_index PerDevice tie_rows "A") !! 0%nat
    = Some 1
  ∧ count_in_window (minutes 5) (group_index PerDevice tie_rows "A")
      (at_hm 0 10 0) = 2
  ∧ window_counts (minutes 5) (group_index PerDevice tie_rows "A") !! 0%nat
    ≠ Some (count_in_window (minutes 5) (group_index PerDevice tie_rows "A")
              (at_hm 0 10 0)).
Proof. vm_compute. repeat split; discriminate. Qed.

(** C1 (amended): the three events of device A at 10:00, 10:02 and 10:04,
    with a window of 5 minutes and grouping by device, give exactly one
    alert, at 10:04 for device A, with threshold 3, and none with
    threshold 4.  The count of an event at time [t] is the number of the
    events of its group, up to and including the event itself in time
    order, with timestamp in (t - window, t]; it is the number of all
    events of the group in (t - window, t] when no later event of the
    group carries the same timestamp. *)
Theorem C1_scenario_and_count (day : Z) (c1 c2 c3 : option string)
    (window_min : Z) (scope : Scope) (filtered : list Row) (k : string)
    (i : nat) (t : Timestamp) :
  1 ≤ window_min →
  group_index scope filtered k !! i = Some t →
  alert_rule 5 3 PerDevice (scenario day c1 c2 c3)
  = Ok [st_error "ALERTS TRIGGERED: 1";
        st_dataframe [new_alert 5 3 PerDevice "A" (at_hm day 10 4)]]
  ∧ alert_rule 5 4 PerDevice (scenario day c1 c2 c3)
    = Ok [st_success "No alerts triggered with current rule."]
  ∧ window_counts (minutes window_min) (group_index scope filtered k) !! i
    = Some (count_in_window (minutes window_min)
              (take (S i) (group_index scope filtered k)) t)
  ∧ ((∀ j, (i < j)%nat → group_index scope filtered k !! j ≠ Some t) →
     window_counts (minutes window_min) (group_index scope filtered k) !! i
     = Some (count_in_window (minutes window_min)
               (group_index scope filtered k) t)).
Proof.
  intros HW%minutes_pos Hi.
  pose proof (group_index_is_ascending scope filtered k) as Hasc.
  split; [|split; [|split]].
  - rewrite alert_rule_nonempty by done.
    by rewrite scenario_all_alerts.
  - rewrite alert_rule_nonempty by done.
    by rewrite scenario_all_alerts.
  - by apply window_counts_trailing.
  - by apply window_counts_no_later_tie.
Qed.

Lemma C1_scenario_and_count_witness :
  alert_rule 5 3 PerDevice (scenario 0 None None None)
  = Ok [st_error "ALERTS TRIGGERED: 1";
        st_dataframe [new_alert 5 3 PerDevice "A" (at_hm 0 10 4)]]
  ∧ alert_rule 5 4 PerDevice (scenario 0 None None None)
    = Ok [st_success "No alerts triggered with current rule."]
  ∧ window_counts (minutes 5) (group_index PerDevice tie_rows "A") !! 1%nat
    = Some (count_in_window (minutes 5)
              (take 2 (group_index PerDevice tie_rows "A")) (at_hm 0 10 0))
  ∧ window_counts (minutes 5) (group_index PerDevice tie_rows "A") !! 1%nat
    = Some (count_in_window (minutes 5)
              (group_index PerDevice tie_rows "A") (at_hm 0 10 0)).
Proof.
  destruct (C1_scenario_and_count 0 None None None 5 PerDevice tie_rows "A" 1
              (at_hm 0 10 0)) as (H1 & H2 & H3 & H4); [lia|reflexivity|].
  split; [exact H1|split; [exact H2|split; [exact H3|apply H4]]].
  intros [|[|j]] Hj; [lia|lia|]. vm_compute. discriminate.
Defined.

(** C4: when the trigger events of a group are a burst of N events at one
    instant, the rule with threshold N, for any window of at least one
    minute, shows exactly one alert for that group, at that instant:
    the counts within the burst are 1, 2, ..., N. *)
Theorem C4_burst_one_alert (window_min : Z) (N : nat) (scope : Scope)
    (filtered : list Row) (k : string) (t : Timestamp) :
  1 ≤ window_min →
  (1 ≤ N)%nat →
  length (group_of (column scope) (trigger_events filtered) k) = N →
  (∀ r, r ∈ group_of (column scope) (trigger_events filtered) k →
        timestamp r = t) →
  ∃ page,
    alert_rule window_min (Z.of_nat N) scope filtered = Ok page
    ∧ filter (λ a, key_value a = k) (shown_alerts page)
      = [new_alert window_min (Z.of_nat N) scope k t].
Proof.
  intros HW HN Hlen Ht.
  set (burst := group_of (column scope) (trigger_events filtered) k) in *.
  assert (trigger_events filtered ≠ []) as Hne.
  { intros Hnil. unfold burst in Hlen. rewrite Hnil in Hlen. simpl in Hlen. lia. }
  eexists. split; [by apply alert_rule_nonempty|].
  rewrite shown_alerts_render. apply Permutation_singleton_r.
  rewrite sort_values_Permutation, filter_key_all_alerts.
  set (g := group_of (column scope)
              (sort_values timestamp (trigger_events filtered)) k).
  assert (g ≡ₚ burst) as Hg
    by (unfold g, burst, group_of; by rewrite sort_values_Permutation).
  assert (timestamp <$> g = replicate N t) as Hidx.
  { symmetry. apply replicate_as_Forall. split.
    - by rewrite length_fmap, Hg.
    - apply Forall_fmap, Forall_forall. intros r Hr. simpl.
      symmetry. apply Ht. by rewrite <-Hg. }
  rewrite group_alerts_dense; [|apply group_index_is_ascending|done|lia|].
  - rewrite Hidx, drop_replicate.
    replace (N - Z.to_nat (Z.of_nat N - 1))%nat with 1%nat by lia. done.
  - intros r1 r2 Hr1 Hr2. rewrite Hg in Hr1, Hr2.
    rewrite (Ht r1), (Ht r2) by done.
    unfold minutes, ns_per_minute, ns_per_second. lia.
Qed.

Lemma C4_burst_one_alert_witness :
  ∃ page,
    alert_rule 5 2 PerDevice tie_rows = Ok page
    ∧ filter (λ a, key_value a = "A") (shown_alerts page)
      = [new_alert 5 2 PerDevice "A" (at_hm 0 10 0)].
Proof.
  apply (C4_burst_one_alert 5 2 PerDevice tie_rows "A" (at_hm 0 10 0)).
  - lia.
  - lia.
  - vm_compute. reflexivity.
  - intros r Hr. unfold tie_rows in Hr.
    change (r ∈ tie_rows) in Hr. unfold tie_rows in Hr.
    rewrite !elem_of_cons, elem_of_nil in Hr.
    by destruct Hr as [->|[->|[]]].
Defined.

(** C7, as stated, fails: an event without a device belongs to no group,
    so with threshold 1 and grouping by device it gets no alert. *)
Lemma C7_missing_key_counterexample :
  trigger_events keyless_rows = keyless_rows
  ∧ alert_rule 5 1 PerDevice keyless_rows
    = Ok [st_success "No alerts triggered with current rule."]
  ∧ length (shown_alerts [st_success "No alerts triggered with current rule."])
    ≠ length (trigger_events keyless_rows).
Proof. vm_compute. repeat split; discriminate. Qed.

Lemma length_omap_is_Some {A B} (f : A → option B) (l : list A) :
  Forall (λ x, is_Some (f x)) l → length (omap f l) = length l.
Proof.
  induction 1 as [|x l [y Hy] _ IH]; [done|].
  simpl. rewrite Hy. simpl. f_equal. exact IH.
Qed.

(** C7 (amended): with threshold 1 and a window of at least one minute,
    the rule shows exactly one alert for each trigger event that has a
    value in the grouping column, and none for an event without one; so
    when every trigger event has such a value there are as many alerts
    as events. *)
Theorem C7_threshold_1_alert_per_keyed_event
    (window_min : Z) (scope : Scope) (filtered : list Row) :
  1 ≤ window_min →
  ∃ page,
    alert_rule window_min 1 scope filtered = Ok page
    ∧ shown_alerts page
      ≡ₚ omap (row_alert window_min 1 scope) (trigger_events filtered)
    ∧ (Forall (λ r, is_Some (column scope r)) (trigger_events filtered) →
       length (shown_alerts page) = length (trigger_events filtered)).
Proof.
  intros HW.
  assert (all_alerts window_min 1 scope filtered
          ≡ₚ omap (row_alert window_min 1 scope) (trigger_events filtered))
    as Hall.
  { unfold all_alerts.
    rewrite (bind_ext_elem_of _
               (λ kg, (λ r, new_alert window_min 1 scope kg.1 (timestamp r))
                        <$> kg.2)).
    - rewrite (groupby_bind_Permutation (column scope)
                 (λ k r, new_alert window_min 1 scope k (timestamp r))).
      unfold row_alert.
      by rewrite sort_values_Permutation.
    - intros [key g] (k' & [= -> ->] & _)%list_elem_of_fmap.
      apply group_alerts_threshold_1; [|done].
      apply group_index_is_ascending. }
  destruct (trigger_events filtered) as [|r base] eqn:Hbase.
  - eexists. split; [unfold alert_rule; rewrite Hbase; reflexivity|]. done.
  - eexists. split; [apply alert_rule_nonempty; by rewrite Hbase|].
    rewrite shown_alerts_render, sort_values_Permutation, Hall.
    split; [done|]. intros Hkeys. apply length_omap_is_Some.
    eapply Forall_impl; [exact Hkeys|]. intros x [k' Hk'].
    unfold row_alert, per_row. rewrite Hk'. by eexists.
Qed.

Lemma C7_threshold_1_alert_per_keyed_event_witness :
  ∃ page,
    alert_rule 5 1 PerDevice tie_rows = Ok page
    ∧ shown_alerts page ≡ₚ omap (row_alert 5 1 PerDevice) (trigger_events tie_rows)
    ∧ (Forall (λ r, is_Some (column PerDevice r)) (trigger_events tie_rows) →
       length (shown_alerts page) = length (trigger_events tie_rows)).
Proof.
  apply (C7_threshold_1_alert_per_keyed_event 5 PerDevice tie_rows). lia.
Defined.


(** * Properties of the rest of the page *)

(** ** The derived columns *)

Lemma risk_score_col_sum (r : Row) :
  risk_score_col r
  = base_of (event r)
    + (if cell_in (country r) high_risk_countries then 10 else 0)
    + (if is_off_hours (hour (timestamp r)) then 5 else 0).
Proof.
  unfold risk_score_col. rewrite base_scores_get.
  pose proof (base_of_range (event r)).
  destruct (cell_in _ _), (is_off_hours _); lia.
Qed.

Lemma risk_score_col_range (r : Row) : 10 ≤ risk_score_col r ≤ 45.
Proof.
  rewrite risk_score_col_sum. pose proof (base_of_range (event r)).
  destruct (cell_in _ _), (is_off_hours _); lia.
Qed.


Lemma risk_level_col_low_or_medium (r : Row) :
  risk_level_col r = "Low" ∨ risk_level_col r = "Medium".
Proof.
  unfold risk_level_col, get_risk_level.
  pose proof (risk_score_col_range r).
  destruct (76 <=? risk_score_col r) eqn:H76; [lia|].
  destruct (51 <=? risk_score_col r) eqn:H51; [lia|].
  destruct (26 <=? risk_score_col r); auto.
Qed.

(** X1: whatever the table, no row has the level Critical (or High):
    the figure "Critical Risk" is always 0, and the risk filter of the
    sidebar only ever offers Low and Medium. *)
Theorem X1_critical_risk_always_zero (df : list Row) :
  critical_risk df = 0%nat
  ∧ (∀ r, r ∈ df → risk_level_col r ≠ "High" ∧ risk_level_col r ≠ "Critical")
  ∧ (∀ level, level ∈ risk_options df → level = "Low" ∨ level = "Medium").
Proof.
  split; [|split].
  - unfold critical_risk. rewrite filter_none; [done|].
    apply Forall_forall. intros r _.
    by destruct (risk_level_col_low_or_medium r) as [-> | ->].
  - intros r _. by destruct (risk_level_col_low_or_medium r) as [-> | ->].
  - intros level. unfold risk_options.
    rewrite isort_Permutation, elem_of_remove_dups.
    intros (r & -> & _)%list_elem_of_fmap. apply risk_level_col_low_or_medium.
Qed.

(** X2: the level of a row by its event type, whether or not the
    country is missing: a [root_detected] event is always Medium, an
    event of a type outside the table of base scores is always Low, and
    an [emulator_detected] event is Medium exactly when its country is
    high-risk, whatever the hour. *)
Theorem X2_level_by_event_type (r : Row) :
  (event r = "root_detected" → risk_level_col r = "Medium")
  ∧ (base_scores !! event r = None → risk_level_col r = "Low")
  ∧ (event r = "emulator_detected" →
     (risk_level_col r = "Medium"
      ↔ ∃ c, country r = Some c ∧ c ∈ high_risk_countries)).
Proof.
  assert (cell_in (country r) high_risk_countries = true
          ↔ ∃ c, country r = Some c ∧ c ∈ high_risk_countries) as Hcell.
  { unfold cell_in. destruct (country r) as [c|].
    - rewrite bool_decide_eq_true. naive_solver.
    - naive_solver. }
  unfold risk_level_col, get_risk_level.
  split; [|split].
  - intros He. rewrite risk_score_col_sum, He.
    destruct (cell_in _ _), (is_off_hours _); reflexivity.
  - intros He. unfold risk_score_col. rewrite He. simpl.
    destruct (cell_in _ _), (is_off_hours _); reflexivity.
  - intros He. rewrite <-Hcell, risk_score_col_sum, He.
    destruct (cell_in _ _), (is_off_hours _); simpl; split; done.
Qed.



(** ** The sidebar *)

Lemma fmap_Some_omap_id {A} (l : list (option A)) :
  None ∉ l → Some <$> omap id l = l.
Proof.
  induction l as [|[v|] l IH]; intros Hl; simpl; [done| |].
  - f_equal. apply IH. intros ?. apply Hl. by right.
  - exfalso. apply Hl. by left.
Qed.

(** X7: listing the countries for the sidebar raises a [TypeError]
    exactly when the column has a missing cell next to a country; when
    it succeeds, the options are the values of the column, each once. *)
Theorem X7_country_options_type_error (df : list Row) :
  (sorted_unique (country <$> df) = inl TypeError
   ↔ (∃ r, r ∈ df ∧ country r = None)
     ∧ (∃ r, r ∈ df ∧ is_Some (country r)))
  ∧ (∀ options, sorted_unique (country <$> df) = inr options →
       NoDup options ∧ ∀ c, c ∈ options ↔ ∃ r, r ∈ df ∧ country r = c).
Proof.
  unfold sorted_unique.
  pose proof (NoDup_remove_dups (country <$> df)) as Hnd.
  assert (∀ c, c ∈ remove_dups (country <$> df) ↔ ∃ r, r ∈ df ∧ country r = c)
    as Hin.
  { intros c. rewrite elem_of_remove_dups, list_elem_of_fmap. naive_solver. }
  destruct (remove_dups (country <$> df)) as [|c1 [|c2 values]] eqn:Hvalues.
  - split.
    + split; [done|]. intros [(r & Hr & Hc) _].
      assert (None ∈ @nil (option string)) as Hnil by (apply Hin; eauto).
      by apply elem_of_nil in Hnil.
    + intros options [= <-]. split; [constructor|]. done.
  - split.
    + split; [done|]. intros [(r1 & Hr1 & Hc1) (r2 & Hr2 & [v Hc2])].
      assert (None ∈ [c1]) as H1 by (apply Hin; eauto).
      assert (Some v ∈ [c1]) as H2 by (apply Hin; eauto).
      apply list_elem_of_singleton in H1, H2. congruence.
    + intros options [= <-]. done.
  - case_decide as Hnone.
    + split; [|done]. split; [intros _|done]. split.
      * apply Hin in Hnone. naive_solver.
      * apply NoDup_cons in Hnd as [Hc1 Hnd].
        apply NoDup_cons in Hnd as [Hc2 _].
        destruct c1 as [v1|].
        { destruct (proj1 (Hin (Some v1))) as (r & ? & ?); [by left|].
          exists r. split; [done|]. by eexists. }
        destruct c2 as [v2|].
        { destruct (proj1 (Hin (Some v2))) as (r & ? & ?); [right; by left|].
          exists r. split; [done|]. by eexists. }
        exfalso. apply Hc1. by left.
    + split.
      * split; [done|]. intros [(r & Hr & Hc) _].
        exfalso. apply Hnone, Hin. eauto.
      * intros options [= <-].
        assert (Some <$> isort String.leb (omap id (c1 :: c2 :: values))
                ≡ₚ c1 :: c2 :: values) as Hp
          by by rewrite isort_Permutation, fmap_Some_omap_id.
        split; [by rewrite Hp|]. intros c. by rewrite Hp.
Qed.

(** ** The global filters *)

Lemma filter_isin_sublist {A} `{EqDecision A} (col : Row → A) selected l :
  filter_isin col selected l `sublist_of` l.
Proof. destruct selected; simpl; [done|]. apply sublist_filter. Qed.

Lemma elem_of_filter_isin {A} `{EqDecision A} (col : Row → A) selected l r :
  r ∈ filter_isin col selected l
  ↔ r ∈ l ∧ (selected = [] ∨ col r ∈ selected).
Proof.
  destruct selected as [|v selected]; simpl.
  - naive_solver.
  - rewrite list_elem_of_filter. naive_solver.
Qed.

Lemma optional_filters_sublist (cell : string → Row → option string) opts l :
  foldl (λ filtered cs, filter_isin (cell cs.1) (Some <$> cs.2) filtered) l opts
  `sublist_of` l.
Proof.
  revert l. induction opts as [|cs opts IH]; intros l; simpl; [done|].
  etransitivity; [apply IH|]. apply filter_isin_sublist.
Qed.

Lemma elem_of_optional_filters (cell : string → Row → option string) opts l r :
  r ∈ foldl (λ filtered cs, filter_isin (cell cs.1) (Some <$> cs.2) filtered)
        l opts
  ↔ r ∈ l ∧ Forall (λ cs : string * list string,
                      cs.2 = [] ∨ ∃ v, cell cs.1 r = Some v ∧ v ∈ cs.2) opts.
Proof.
  revert l. induction opts as [|cs opts IH]; intros l; simpl.
  - rewrite Forall_nil. naive_solver.
  - rewrite IH, elem_of_filter_isin, Forall_cons, list_elem_of_fmap.
    destruct cs as [c [|v selected]]; simpl; naive_solver.
Qed.

Lemma apply_filters_sublist cell sel df :
  apply_filters cell sel df `sublist_of` df.
Proof.
  unfold apply_filters.
  etransitivity; [apply optional_filters_sublist|].
  do 3 (etransitivity; [apply filter_isin_sublist|]).
  destruct (date_range sel) as [|? [|? [|? ?]]]; try done.
  apply sublist_filter.
Qed.

Lemma elem_of_apply_filters cell sel df r :
  r ∈ apply_filters cell sel df ↔ r ∈ df ∧ selected_by cell sel r.
Proof.
  unfold apply_filters, selected_by.
  rewrite elem_of_optional_filters, !elem_of_filter_isin.
  destruct (date_range sel) as [|a [|b [|? ?]]];
    rewrite ?list_elem_of_filter; naive_solver.
Qed.

(** X4: filtering only removes rows: the filtered table holds rows of
    the loaded table, in their order.  A row is kept exactly when it
    passes every filter that is set: the date range when it is a pair,
    and each selection that is not empty. *)
Theorem X4_filters_keep_selected_rows
    (cell : string → Row → option string) (sel : Selection) (df : list Row) :
  apply_filters cell sel df `sublist_of` df
  ∧ ∀ r, r ∈ apply_filters cell sel df ↔ r ∈ df ∧ selected_by cell sel r.
Proof.
  split; [apply apply_filters_sublist|]. intros r. apply elem_of_apply_filters.
Qed.

Lemma foldr_min_le (d : Z) (ds : list Z) x :
  x ∈ d :: ds → foldr Z.min d ds ≤ x.
Proof.
  induction ds as [|d' ds IH]; simpl.
  - intros ->%list_elem_of_singleton. lia.
  - rewrite !elem_of_cons. intros [->|[->|Hx]].
    + etransitivity; [apply Z.le_min_r|]. apply IH. by left.
    + apply Z.le_min_l.
    + etransitivity; [apply Z.le_min_r|]. apply IH. by right.
Qed.

Lemma foldr_max_ge (d : Z) (ds : list Z) x :
  x ∈ d :: ds → x ≤ foldr Z.max d ds.
Proof.
  induction ds as [|d' ds IH]; simpl.
  - intros ->%list_elem_of_singleton. lia.
  - rewrite !elem_of_cons. intros [->|[->|Hx]].
    + etransitivity; [|apply Z.le_max_r]. apply IH. by left.
    + apply Z.le_max_l.
    + etransitivity; [|apply Z.le_max_r]. apply IH. by right.
Qed.

(** X5: the page as it opens shows the whole table: with the date range
    at its default, from the first to the last date of the table, and
    nothing chosen in any selection, no row is filtered out. *)
Theorem X5_default_selection_keeps_all
    (cell : string → Row → option string) (sel : Selection) (df : list Row)
    (first_date last_date : Z) :
  min_date df = Some first_date →
  max_date df = Some last_date →
  date_range sel = [first_date; last_date] →
  event_sel sel = [] → country_sel sel = [] → risk_sel sel = [] →
  Forall (λ cs, cs.2 = []) (optional_filters sel) →
  apply_filters cell sel df = df.
Proof.
  intros Hmin Hmax Hrange He Hc Hr Hopt.
  unfold apply_filters. rewrite Hrange, He, Hc, Hr. simpl.
  assert (∀ l, foldl (λ filtered cs,
                        filter_isin (cell cs.1) (Some <$> cs.2) filtered)
                 l (optional_filters sel) = l) as ->.
  { induction Hopt as [|cs opts Hcs _ IH]; intros l; simpl; [done|].
    rewrite Hcs. simpl. apply IH. }
  apply filter_all, Forall_forall. intros r Hr'.
  unfold min_date, max_date in *.
  assert (date_col r ∈ date_col <$> df) as Hd by by apply list_elem_of_fmap_2.
  destruct (date_col <$> df) as [|d ds]; simplify_eq.
  split; [by apply foldr_min_le|by apply foldr_max_ge].
Qed.

Lemma X5_default_selection_keeps_all_witness :
  apply_filters (λ _ _, None)
    (mkSelection [0; 1] [] [] [] [("package", [])])
    [mkRow (at_hm 0 10 0) "root_detected" (Some "USA") (Some "A");
     mkRow (at_hm 1 23 0) "emulator_detected" None (Some "B")]
  = [mkRow (at_hm 0 10 0) "root_detected" (Some "USA") (Some "A");
     mkRow (at_hm 1 23 0) "emulator_detected" None (Some "B")].
Proof.
  apply (X5_default_selection_keeps_all (λ _ _, None)
           (mkSelection [0; 1] [] [] [] [("package", [])])
           [mkRow (at_hm 0 10 0) "root_detected" (Some "USA") (Some "A");
            mkRow (at_hm 1 23 0) "emulator_detected" None (Some "B")] 0 1).
  - vm_compute. reflexivity.
  - vm_compute. reflexivity.
  - reflexivity.
  - reflexivity.
  - reflexivity.
  - reflexivity.
  - repeat constructor.
Defined.

(** X6: once event types are chosen in the sidebar and
    [emulator_detected] is not among them, the alert rule has nothing to
    work on: whatever its settings, it shows the notice that there are
    no such events, and no alert. *)
Theorem X6_alert_rule_after_event_filter
    (cell : string → Row → option string) (sel : Selection) (df : list Row)
    (window_min threshold : Z) (scope : Scope) :
  event_sel sel ≠ [] →
  "emulator_detected" ∉ event_sel sel →
  alert_rule window_min threshold scope (apply_filters cell sel df)
  = Ok [st_info "No emulator_detected events in the current filtered dataset."].
Proof.
  intros Hsel Hnot.
  assert (trigger_events (apply_filters cell sel df) = []) as Hnone.
  { apply filter_none, Forall_forall. intros r Hr He.
    apply elem_of_apply_filters in Hr as [_ (_ & [?|Hev] & _)]; [done|].
    apply Hnot. by rewrite <-He. }
  unfold alert_rule. by rewrite Hnone.
Qed.

Lemma X6_alert_rule_after_event_filter_witness :
  alert_rule 5 1 PerDevice
    (apply_filters (λ _ _, None)
       (mkSelection [] ["root_detected"] [] [] [])
       [mkRow (at_hm 0 10 0) "root_detected" (Some "USA") (Some "A");
        mkRow (at_hm 0 10 1) "emulator_detected" (Some "USA") (Some "A")])
  = Ok [st_info "No emulator_detected events in the current filtered dataset."].
Proof.
  apply (X6_alert_rule_after_event_filter (λ _ _, None)
           (mkSelection [] ["root_detected"] [] [] [])
           [mkRow (at_hm 0 10 0) "root_detected" (Some "USA") (Some "A");
            mkRow (at_hm 0 10 1) "emulator_detected" (Some "USA") (Some "A")]
           5 1 PerDevice).
  - simpl. discriminate.
  - simpl. rewrite list_elem_of_singleton. discriminate.
Defined.

(** ** The figures and the charts *)

Lemma sort_counts_descending_Permutation counts :
  sort_counts_descending counts ≡ₚ counts.
Proof. apply isort_Permutation. Qed.


Lemma length_omap_filter {A B} (f : A → option B) (l : list A) :
  length (omap f l) = length (filter (λ x, is_Some (f x)) l).
Proof.
  induction l as [|x l IH]; [done|].
  simpl. destruct (f x) as [y|] eqn:Hx.
  - rewrite filter_cons_True by (rewrite Hx; by eexists). simpl.
    f_equal. exact IH.
  - rewrite filter_cons_False by (rewrite Hx; by intros [??]). exact IH.
Qed.

Lemma sum_group_sizes (col : Row → option string) (rows : list Row) :
  sum_list (group_sizes col rows).*2
  = length (filter (λ r, is_Some (col r)) rows).
Proof.
  rewrite <-(length_omap_filter col).
  assert (length (omap col rows)
          = length (omap (per_row col (λ _ r, r)) rows)) as ->.
  { induction rows as [|r rows IH]; [done|].
    simpl. unfold per_row at 1. destruct (col r); simpl; [f_equal|]; exact IH. }
  rewrite <-(groupby_bind_Permutation col (λ _ r, r)).
  unfold group_sizes. generalize (groupby col rows) as groups.
  induction groups as [|[k g] groups IH]; [done|].
  rewrite bind_cons, length_app, fmap_cons, fmap_cons. simpl.
  by rewrite length_fmap, IH.
Qed.

Lemma elem_of_group_sizes (col : Row → option string) (rows : list Row) k n :
  (k, n) ∈ group_sizes col rows
  ↔ n = length (group_of col rows k) ∧ (1 ≤ n)%nat.
Proof.
  unfold group_sizes, groupby. rewrite <-list_fmap_compose.
  rewrite list_elem_of_fmap. split.
  - intros (k' & [= -> ->] & Hk). split; [done|].
    apply elem_of_group_keys in Hk as (r & Hr & Hc).
    assert (r ∈ group_of col rows k') as Hin
      by by apply list_elem_of_filter.
    unfold group_of in *.
    destruct (filter _ rows); [by apply elem_of_nil in Hin|simpl; lia].
  - intros [-> Hn]. exists k. split; [done|].
    apply elem_of_group_keys. unfold group_of in Hn.
    destruct (filter (λ r, col r = Some k) rows) as [|r g] eqn:Hg;
      [simpl in Hn; lia|].
    assert (r ∈ filter (λ r, col r = Some k) rows) as Hr
      by (rewrite Hg; by left).
    apply list_elem_of_filter in Hr as [? ?]. eauto.
Qed.

Lemma group_sizes_keys (col : Row → option string) (rows : list Row) :
  (group_sizes col rows).*1 = group_keys col rows.
Proof.
  unfold group_sizes, groupby. rewrite <-!list_fmap_compose.
  apply list_fmap_id.
Qed.


(** X11: the chart of the risk distribution has at most the two bars
    Low and Medium, and their heights add up to the number of rows. *)
Theorem X11_risk_distribution_low_medium (filtered : list Row) :
  (∀ level n, (level, n) ∈ risk_distribution filtered →
              level = "Low" ∨ level = "Medium")
  ∧ NoDup (risk_distribution filtered).*1
  ∧ (length (risk_distribution filtered) ≤ 2)%nat
  ∧ sum_list (risk_distribution filtered).*2 = length filtered.
Proof.
  unfold risk_distribution, value_counts.
  pose proof (sort_counts_descending_Permutation
                (group_sizes (λ r, Some (risk_level_col r)) filtered)) as Hp.
  assert (∀ level, level ∈ group_keys (λ r, Some (risk_level_col r)) filtered
                   → level = "Low" ∨ level = "Medium") as Hkeys.
  { intros level (r & _ & [= <-])%elem_of_group_keys.
    apply risk_level_col_low_or_medium. }
  pose proof (group_keys_NoDup (λ r, Some (risk_level_col r)) filtered) as Hnd.
  split; [|split; [|split]].
  - intros level n Hin. apply Hkeys. rewrite <-group_sizes_keys, <-Hp.
    apply list_elem_of_fmap. by exists (level, n).
  - by rewrite Hp, group_sizes_keys.
  - rewrite Hp, <-(length_fmap fst), group_sizes_keys.
    change 2%nat with (length ["Low"; "Medium"]).
    apply submseteq_length, NoDup_submseteq; [done|].
    intros level Hl. destruct (Hkeys level Hl) as [-> | ->].
    + by left.
    + right. by left.
  - rewrite Hp, sum_group_sizes, filter_all; [done|].
    apply Forall_forall. intros r _. by eexists.
Qed.

(** X12: the chart by country and the map show the same numbers: one
    entry for each country that occurs, with the number of its rows;
    rows without a country are in neither, so the numbers add up to the
    number of rows that have a country. *)
Theorem X12_country_counts (filtered : list Row)
    (counts : list (string * nat)) :
  geo_counts filtered = Some counts →
  events_by_country filtered ≡ₚ counts
  ∧ (∀ c n, (c, n) ∈ counts
            ↔ n = length (filter (λ r, country r = Some c) filtered)
              ∧ (1 ≤ n)%nat)
  ∧ sum_list counts.*2
    = length (filter (λ r, is_Some (country r)) filtered).
Proof.
  intros Hgeo. unfold geo_counts in Hgeo.
  assert (counts = group_sizes country filtered) as ->
    by (destruct filtered; by simplify_eq).
  split; [|split].
  - unfold events_by_country, value_counts.
    by rewrite !sort_counts_descending_Permutation.
  - intros c n. apply elem_of_group_sizes.
  - apply sum_group_sizes.
Qed.

Lemma X12_country_counts_witness :
  events_by_country
    [mkRow (at_hm 0 10 0) "root_detected" (Some "USA") (Some "A");
     mkRow (at_hm 0 11 0) "root_detected" None (Some "A")]
  ≡ₚ [("USA", 1%nat)]
  ∧ (∀ c n, (c, n) ∈ [("USA", 1%nat)]
            ↔ n = length (filter (λ r, country r = Some c)
                    [mkRow (at_hm 0 10 0) "root_detected" (Some "USA") (Some "A");
                     mkRow (at_hm 0 11 0) "root_detected" None (Some "A")])
              ∧ (1 ≤ n)%nat)
  ∧ sum_list [("USA", 1%nat)].*2
    = length (filter (λ r, is_Some (country r))
                [mkRow (at_hm 0 10 0) "root_detected" (Some "USA") (Some "A");
                 mkRow (at_hm 0 11 0) "root_detected" None (Some "A")]).
Proof.
  apply (X12_country_counts
           [mkRow (at_hm 0 10 0) "root_detected" (Some "USA") (Some "A");
            mkRow (at_hm 0 11 0) "root_detected" None (Some "A")]
           [("USA", 1%nat)]).
  vm_compute. reflexivity.
Defined.

(** ** The drill-down by device *)

Lemma elem_of_device_options (filtered : list Row) d :
  d ∈ device_options filtered ↔ ∃ r, r ∈ filtered ∧ device r = Some d.
Proof. apply elem_of_group_keys. Qed.

Lemma filter_device_is_Some (filtered : list Row) d :
  filter (device_is (Some d)) filtered = group_of device filtered d.
Proof.
  apply filter_ext_elem_of. intros r _. unfold device_is. naive_solver.
Qed.

Lemma selected_device_rows (filtered : list Row) (d : string) :
  d ∈ device_options filtered →
  ∃ r dev_df,
    sort_values timestamp (filter (device_is (Some d)) filtered) = r :: dev_df.
Proof.
  intros (r & Hr & Hd)%elem_of_device_options.
  assert (r ∈ sort_values timestamp (filter (device_is (Some d)) filtered))
    as Hin.
  { rewrite sort_values_Permutation, filter_device_is_Some.
    by apply list_elem_of_filter. }
  destruct (sort_values timestamp (filter (device_is (Some d)) filtered))
    as [|r' dev_df]; [by apply elem_of_nil in Hin|eauto].
Qed.

(** X8: for a device picked from the list the page offers, the
    drill-down shows a chart and a table of exactly the rows of that
    device, in ascending order of time; there is at least one row, and
    the caption gives their number. *)
Theorem X8_drill_down_selected_device (filtered : list Row) (d : string) :
  d ∈ device_options filtered →
  ∃ dev_df,
    drill_down (Some d) filtered
    = [dd_caption (str (Z.of_nat (length dev_df)) +:+ " events for: " +:+ d);
       dd_scatter dev_df; dd_dataframe dev_df]
    ∧ dev_df ≠ []
    ∧ dev_df ≡ₚ filter (λ r, device r = Some d) filtered
    ∧ StronglySorted (by_time timestamp) dev_df.
Proof.
  intros Hd.
  destruct (selected_device_rows filtered d Hd) as (r & dev_df & Hdev).
  exists (r :: dev_df). split; [|split; [done|split]].
  - unfold drill_down. destruct filtered as [|r0 filtered].
    + apply elem_of_device_options in Hd as (? & []%elem_of_nil & _).
    + by rewrite Hdev.
  - rewrite <-Hdev, sort_values_Permutation. by rewrite filter_device_is_Some.
  - rewrite <-Hdev. apply sort_values_sorted.
Qed.

Lemma X8_drill_down_selected_device_witness :
  ∃ dev_df,
    drill_down (Some "A") tie_rows
    = [dd_caption (str (Z.of_nat (length dev_df)) +:+ " events for: " +:+ "A");
       dd_scatter dev_df; dd_dataframe dev_df]
    ∧ dev_df ≠ []
    ∧ dev_df ≡ₚ filter (λ r, device r = Some "A") tie_rows
    ∧ StronglySorted (by_time timestamp) dev_df.
Proof.
  apply (X8_drill_down_selected_device tie_rows "A").
  apply elem_of_device_options. eexists. split; [by left|]. reflexivity.
Defined.

(** X9: with the device being what the select box returns for the
    list of devices of the table, the notice that the selected device
    has no events appears exactly when the table has rows but none of
    them has a device; the caption then reads "0 events for: None". *)
Theorem X9_drill_down_no_device (filtered : list Row)
    (sel_device : option string) :
  selectbox_returns (device_options filtered) sel_device →
  (dd_info "No events for the selected device." ∈ drill_down sel_device filtered
   ↔ filtered ≠ [] ∧ ∀ r, r ∈ filtered → device r = None)
  ∧ (filtered ≠ [] → (∀ r, r ∈ filtered → device r = None) →
     drill_down sel_device filtered
     = [dd_caption "0 events for: None";
        dd_info "No events for the selected device."]).
Proof.
  intros Hsel. unfold selectbox_returns in Hsel.
  destruct (device_options filtered) as [|d0 options] eqn:Hoptions.
  - subst sel_device.
    assert (∀ r, r ∈ filtered → device r = None) as Hnone.
    { intros r Hr. destruct (device r) as [d|] eqn:Hd; [|done].
      assert (d ∈ device_options filtered) as Hin
        by (apply elem_of_device_options; eauto).
      rewrite Hoptions in Hin. by apply elem_of_nil in Hin. }
    assert (filter (device_is None) filtered = []) as Hfilter.
    { apply filter_none, Forall_forall. intros r _ [[? [=]] _]. }
    destruct filtered as [|r0 filtered].
    + split; [|done]. simpl. split; [|by intros [? _]].
      intros [[=]|Hin%elem_of_nil]%elem_of_cons. done.
    + assert (drill_down None (r0 :: filtered)
              = [dd_caption "0 events for: None";
                 dd_info "No events for the selected device."]) as Hpage.
      { unfold drill_down. by rewrite Hfilter. }
      split; [|done]. rewrite Hpage. split; [done|].
      intros _. right. by left.
  - destruct Hsel as (d & -> & Hd). rewrite <-Hoptions in Hd.
    pose proof Hd as (r & Hr & Hdev)%elem_of_device_options.
    destruct (selected_device_rows filtered d Hd) as (r' & dev_df & Hrows).
    split.
    + split.
      * unfold drill_down. destruct filtered as [|r0 filtered];
          [by apply elem_of_nil in Hr|].
        rewrite Hrows. intros Hin. rewrite !elem_of_cons, elem_of_nil in Hin.
        by destruct Hin as [[=]|[[=]|[[=]|[]]]].
      * intros [_ Hnone]. specialize (Hnone r Hr). congruence.
    + intros _ Hnone. specialize (Hnone r Hr). congruence.
Qed.

(** ** More on the rolling count *)

Lemma length_filter_impl {A} (P Q : A → Prop)
    `{!∀ x, Decision (P x), !∀ x, Decision (Q x)} (l : list A) :
  (∀ x, P x → Q x) → (length (filter P l) ≤ length (filter Q l))%nat.
Proof.
  intros HPQ. induction l as [|x l IH]; [done|].
  rewrite !filter_cons.
  destruct (decide (P x)) as [HP|HP], (decide (Q x)) as [HQ|HQ]; simpl;
    try lia.
  by apply HPQ in HP.
Qed.

Lemma window_counts_lookup_total window index i t :
  ascending index → 0 < window → index !! i = Some t →
  ∃ c, window_counts window index !! i = Some c
       ∧ 1 ≤ c ≤ Z.of_nat (S i)
       ∧ c ≤ count_in_window window index t.
Proof.
  intros Hasc HW Hi. eexists. split; [by apply window_counts_lookup|].
  assert (S i ≤ length index)%nat by by eapply lookup_lt_Some.
  split; [split|].
  - rewrite (take_S_r _ _ t), filter_app, length_app by done.
    rewrite filter_cons_True by lia. simpl. lia.
  - pose proof (length_filter (λ u, t - window < u) (take (S i) index)).
    rewrite length_take in *. lia.
  - unfold count_in_window.
    assert (filter (λ u, t - window < u) (take (S i) index)
            = filter (λ u, t - window < u ≤ t) (take (S i) index)) as Heq.
    { apply filter_ext_elem_of. intros u (j & Hj & Hlt)%elem_of_take.
      assert (u ≤ t)
        by (eapply (ascending_lookup_le index j i); eauto with lia).
      lia. }
    apply inj_le.
    rewrite <-(take_drop (S i) index) at 2.
    rewrite filter_app, length_app, Heq. lia.
Qed.



(** ** More on the alert rule *)

Lemma hits_index_nil_r threshold index : hits_index threshold index [] = [].
Proof. by destruct index. Qed.

Lemma hits_index_sublist threshold index counts :
  hits_index threshold index counts `sublist_of` index.
Proof.
  revert counts. induction index as [|t index IH]; intros [|c counts];
    try done.
  - rewrite hits_index_nil_r. apply sublist_nil_l.
  - rewrite hits_index_cons. case_decide.
    + by apply sublist_skip.
    + by apply sublist_cons.
Qed.

Lemma hits_index_threshold_mono th1 th2 index counts :
  th1 ≤ th2 →
  hits_index th2 index counts `sublist_of` hits_index th1 index counts.
Proof.
  intros Hth. revert counts.
  induction index as [|t index IH]; intros [|c counts]; try done.
  rewrite !hits_index_cons.
  destruct (decide (th2 ≤ c)), (decide (th1 ≤ c)); try lia.
  - by apply sublist_skip.
  - by apply sublist_cons.
  - done.
Qed.

Lemma hits_index_counts_mono threshold index counts1 counts2 :
  Forall2 Z.le counts1 counts2 →
  hits_index threshold index counts1
  `sublist_of` hits_index threshold index counts2.
Proof.
  intros Hc. revert index.
  induction Hc as [|c1 c2 counts1 counts2 Hle _ IH]; intros [|t index];
    try done.
  rewrite !hits_index_cons.
  destruct (decide (threshold ≤ c1)), (decide (threshold ≤ c2)); try lia.
  - by apply sublist_skip.
  - by apply sublist_cons.
  - done.
Qed.

Lemma hits_index_none threshold index counts :
  Forall (λ c, c < threshold) counts → hits_index threshold index counts = [].
Proof.
  intros Hc. revert index.
  induction Hc as [|c counts Hlt _ IH]; intros [|t index]; try done.
  rewrite hits_index_cons, decide_False by lia. apply IH.
Qed.

Lemma window_counts_window_mono w1 w2 index :
  ascending index → 0 < w1 → w1 ≤ w2 →
  Forall2 Z.le (window_counts w1 index) (window_counts w2 index).
Proof.
  intros Hasc Hw1 Hw2. apply Forall2_same_length_lookup.
  split; [by rewrite !length_window_counts|].
  intros i c1 c2 Hc1 Hc2.
  destruct (lookup_lt_is_Some_2 index i) as [t Hi].
  { rewrite <-(length_window_counts w1). by eapply lookup_lt_Some. }
  rewrite (window_counts_lookup _ _ _ t) in Hc1 by done.
  rewrite (window_counts_lookup _ _ _ t) in Hc2 by (done || lia).
  simplify_eq. apply inj_le, length_filter_impl. intros u. lia.
Qed.

(** The events of the alerts of a group. *)
Lemma alert_event_group_alerts window_min threshold scope key g :
  alert_event <$> group_alerts window_min threshold scope (key, g)
  = (λ t, (t, key))
      <$> hits_index threshold (timestamp <$> g)
            (window_counts (minutes window_min) (timestamp <$> g)).
Proof. unfold group_alerts. simpl. by rewrite <-list_fmap_compose. Qed.

Lemma fmap_bind_list {A B C} (f : B → C) (g : A → list B) (l : list A) :
  f <$> (l ≫= g) = l ≫= λ x, f <$> g x.
Proof.
  induction l as [|x l IH]; [done|].
  by rewrite !bind_cons, fmap_app, IH.
Qed.

Lemma bind_sublist_pointwise {A B} (f g : A → list B) (l : list A) :
  (∀ x, x ∈ l → f x `sublist_of` g x) → l ≫= f `sublist_of` l ≫= g.
Proof.
  induction l as [|x l IH]; intros Hfg; [done|].
  rewrite !bind_cons. apply sublist_app.
  - apply Hfg. by left.
  - apply IH. intros y Hy. apply Hfg. by right.
Qed.

(** The groups the loop runs over, each with an ascending index. *)
Lemma elem_of_groupby_sorted scope filtered key g :
  (key, g) ∈ groupby (column scope)
               (sort_values timestamp (trigger_events filtered)) →
  g = group_of (column scope)
        (sort_values timestamp (trigger_events filtered)) key
  ∧ ascending (timestamp <$> g).
Proof.
  intros (k & [= -> ->] & _)%list_elem_of_fmap.
  split; [done|]. apply group_index_is_ascending.
Qed.

(** The page and the alerts on it, for every input. *)
Lemma alert_rule_shown window_min threshold scope filtered :
  ∃ page,
    alert_rule window_min threshold scope filtered = Ok page
    ∧ shown_alerts page
      = sort_values time (all_alerts window_min threshold scope filtered).
Proof.
  destruct (trigger_events filtered) as [|r base] eqn:Hbase.
  - eexists. split; [unfold alert_rule; rewrite Hbase; reflexivity|].
    unfold all_alerts. by rewrite Hbase.
  - eexists. split; [apply alert_rule_nonempty; by rewrite Hbase|].
    apply shown_alerts_render.
Qed.

Lemma group_alerts_sublist window_min threshold scope key g :
  group_alerts window_min threshold scope (key, g)
  `sublist_of` (λ r, new_alert window_min threshold scope key (timestamp r))
                 <$> g.
Proof.
  unfold group_alerts. simpl.
  etransitivity; [apply fmap_sublist, hits_index_sublist|].
  by rewrite <-list_fmap_compose.
Qed.

Lemma all_alerts_submseteq window_min threshold scope filtered :
  all_alerts window_min threshold scope filtered
  ⊆+ omap (row_alert window_min threshold scope) (trigger_events filtered).
Proof.
  unfold all_alerts, row_alert.
  rewrite <-(sort_values_Permutation timestamp (trigger_events filtered)) at 2.
  rewrite <-(groupby_bind_Permutation (column scope)
               (λ k r, new_alert window_min threshold scope k (timestamp r))).
  apply sublist_submseteq, bind_sublist_pointwise.
  intros [key g] _. apply group_alerts_sublist.
Qed.

(** X14: every alert on the page stands for an event of the table: an
    [emulator_detected] row with the key and the time of the alert; the
    alert names the grouping column and the rule.  No event gets more
    than one alert, so there are at most as many alerts as trigger
    events. *)
Theorem X14_alerts_come_from_events
    (window_min threshold : Z) (scope : Scope) (filtered : list Row) :
  ∃ page,
    alert_rule window_min threshold scope filtered = Ok page
    ∧ shown_alerts page
      ⊆+ omap (row_alert window_min threshold scope) (trigger_events filtered)
    ∧ (length (shown_alerts page) ≤ length (trigger_events filtered))%nat
    ∧ ∀ a, a ∈ shown_alerts page →
        scope_name a = group_key scope
        ∧ rule a = rule_text threshold window_min
        ∧ ∃ r, r ∈ filtered
               ∧ event r = "emulator_detected"
               ∧ column scope r = Some (key_value a)
               ∧ timestamp r = time a.
Proof.
  destruct (alert_rule_shown window_min threshold scope filtered)
    as (page & Hpage & Hshown).
  exists page. split; [done|].
  assert (shown_alerts page
          ⊆+ omap (row_alert window_min threshold scope)
               (trigger_events filtered)) as Hsub.
  { rewrite Hshown, sort_values_Permutation. apply all_alerts_submseteq. }
  split; [done|]. split.
  - etransitivity; [by apply submseteq_length|].
    rewrite length_omap_filter. apply length_filter.
  - intros a Ha. eapply elem_of_submseteq in Ha; [|exact Hsub].
    apply list_elem_of_omap in Ha as (r & Hr & Ha).
    apply list_elem_of_filter in Hr as [He Hr].
    unfold row_alert, per_row in Ha.
    destruct (column scope r) as [k|] eqn:Hk; simplify_eq/=.
    split; [done|]. split; [done|]. by exists r.
Qed.

(** X15: raising the threshold never adds an alert: the events that get
    an alert with the higher threshold are among those that get one
    with the lower. *)
Theorem X15_threshold_monotone
    (window_min th1 th2 : Z) (scope : Scope) (filtered : list Row) :
  th1 ≤ th2 →
  ∃ page1 page2,
    alert_rule window_min th1 scope filtered = Ok page1
    ∧ alert_rule window_min th2 scope filtered = Ok page2
    ∧ alert_event <$> shown_alerts page2 ⊆+ alert_event <$> shown_alerts page1.
Proof.
  intros Hth.
  destruct (alert_rule_shown window_min th1 scope filtered)
    as (page1 & Hpage1 & Hshown1).
  destruct (alert_rule_shown window_min th2 scope filtered)
    as (page2 & Hpage2 & Hshown2).
  exists page1, page2. split; [done|]. split; [done|].
  rewrite Hshown1, Hshown2, !sort_values_Permutation.
  apply sublist_submseteq. unfold all_alerts.
  rewrite !fmap_bind_list. apply bind_sublist_pointwise.
  intros [key g] _. rewrite !alert_event_group_alerts.
  by apply fmap_sublist, hits_index_threshold_mono.
Qed.

Lemma X15_threshold_monotone_witness :
  ∃ page1 page2,
    alert_rule 5 1 PerDevice tie_rows = Ok page1
    ∧ alert_rule 5 2 PerDevice tie_rows = Ok page2
    ∧ alert_event <$> shown_alerts page2 ⊆+ alert_event <$> shown_alerts page1.
Proof. apply (X15_threshold_monotone 5 1 2 PerDevice tie_rows). lia. Defined.

(** X16: widening the window never removes an alert: with the same
    threshold, the events that get an alert with the shorter window are
    among those that get one with the longer. *)
Theorem X16_window_monotone
    (w1 w2 threshold : Z) (scope : Scope) (filtered : list Row) :
  1 ≤ w1 → w1 ≤ w2 →
  ∃ page1 page2,
    alert_rule w1 threshold scope filtered = Ok page1
    ∧ alert_rule w2 threshold scope filtered = Ok page2
    ∧ alert_event <$> shown_alerts page1 ⊆+ alert_event <$> shown_alerts page2.
Proof.
  intros Hw1 Hw2.
  destruct (alert_rule_shown w1 threshold scope filtered)
    as (page1 & Hpage1 & Hshown1).
  destruct (alert_rule_shown w2 threshold scope filtered)
    as (page2 & Hpage2 & Hshown2).
  exists page1, page2. split; [done|]. split; [done|].
  rewrite Hshown1, Hshown2, !sort_values_Permutation.
  apply sublist_submseteq. unfold all_alerts.
  rewrite !fmap_bind_list. apply bind_sublist_pointwise.
  intros [key g] [_ Hasc]%elem_of_groupby_sorted.
  rewrite !alert_event_group_alerts.
  apply fmap_sublist, hits_index_counts_mono, window_counts_window_mono.
  - done.
  - by apply minutes_pos.
  - unfold minutes, ns_per_minute, ns_per_second. lia.
Qed.

Lemma X16_window_monotone_witness :
  ∃ page1 page2,
    alert_rule 1 3 PerDevice (scenario 0 None None None) = Ok page1
    ∧ alert_rule 5 3 PerDevice (scenario 0 None None None) = Ok page2
    ∧ alert_event <$> shown_alerts page1 ⊆+ alert_event <$> shown_alerts page2.
Proof.
  apply (X16_window_monotone 1 5 3 PerDevice (scenario 0 None None None)); lia.
Defined.

Lemma all_alerts_nil window_min threshold scope filtered :
  (∀ key g,
     (key, g) ∈ groupby (column scope)
                  (sort_values timestamp (trigger_events filtered)) →
     hits_index threshold (timestamp <$> g)
       (window_counts (minutes window_min) (timestamp <$> g)) = []) →
  all_alerts window_min threshold scope filtered = [].
Proof.
  intros Hnone. unfold all_alerts.
  rewrite (bind_ext_elem_of _ (λ _, [])).
  - generalize (groupby (column scope)
                  (sort_values timestamp (trigger_events filtered))).
    induction l as [|kg l IH]; [done|]. by rewrite bind_cons, IH.
  - intros [key g] Hin. unfold group_alerts. simpl.
    by rewrite (Hnone key g Hin).
Qed.

(** X17: a threshold above the number of trigger events of every group
    gives no alert: the page reports that no alert was triggered. *)
Theorem X17_threshold_above_group_sizes
    (window_min threshold : Z) (scope : Scope) (filtered : list Row) :
  1 ≤ window_min →
  trigger_events filtered ≠ [] →
  (∀ k, Z.of_nat (length (filter (λ r, column scope r = Some k)
                            (trigger_events filtered))) < threshold) →
  alert_rule window_min threshold scope filtered
  = Ok [st_success "No alerts triggered with current rule."].
Proof.
  intros HW Hne Hsize. rewrite alert_rule_nonempty by done.
  rewrite all_alerts_nil; [done|].
  intros key g [-> Hasc]%elem_of_groupby_sorted.
  apply hits_index_none, Forall_lookup. intros i c Hc.
  destruct (lookup_lt_is_Some_2
              (timestamp <$> group_of (column scope)
                 (sort_values timestamp (trigger_events filtered)) key) i)
    as [t Hi].
  { rewrite <-(length_window_counts (minutes window_min)).
    by eapply lookup_lt_Some. }
  destruct (window_counts_lookup_total (minutes window_min) _ i t Hasc)
    as (c' & Hc' & [_ Hle] & _); [by apply minutes_pos|done|].
  simplify_eq. apply lookup_lt_Some in Hi.
  rewrite length_fmap in Hi. unfold group_of in Hi.
  rewrite sort_values_Permutation in Hi.
  specialize (Hsize key). lia.
Qed.

Lemma X17_threshold_above_group_sizes_witness :
  alert_rule 5 3 PerDevice tie_rows
  = Ok [st_success "No alerts triggered with current rule."].
Proof.
  apply (X17_threshold_above_group_sizes 5 3 PerDevice tie_rows).
  - lia.
  - discriminate.
  - intros k.
    pose proof (length_filter (λ r, column PerDevice r = Some k)
                  (trigger_events tie_rows)) as Hlen.
    change (length (trigger_events tie_rows)) with 2%nat in Hlen. lia.
Defined.

(** X18: events that are at least a window apart within their group
    never give an alert when the threshold is 2 or more: each event is
    alone in its window. *)
Theorem X18_isolated_events_no_alert
    (window_min threshold : Z) (scope : Scope) (filtered : list Row) :
  1 ≤ window_min →
  2 ≤ threshold →
  trigger_events filtered ≠ [] →
  (∀ k i j ti tj,
     group_index scope filtered k !! i = Some ti →
     group_index scope filtered k !! j = Some tj →
     (i < j)%nat → ti + minutes window_min ≤ tj) →
  alert_rule window_min threshold scope filtered
  = Ok [st_success "No alerts triggered with current rule."].
Proof.
  intros HW Hth Hne Hapart. rewrite alert_rule_nonempty by done.
  rewrite all_alerts_nil; [done|].
  intros key g [-> Hasc]%elem_of_groupby_sorted.
  fold (group_index scope filtered key) in *.
  apply hits_index_none, Forall_lookup. intros i c Hc.
  destruct (lookup_lt_is_Some_2 (group_index scope filtered key) i)
    as [t Hi].
  { rewrite <-(length_window_counts (minutes window_min)).
    by eapply lookup_lt_Some. }
  rewrite (window_counts_lookup _ _ _ t) in Hc
    by (done || by apply minutes_pos).
  simplify_eq.
  rewrite (take_S_r _ _ t), filter_app by done. rewrite filter_none.
  - rewrite filter_cons_True by (apply minutes_pos in HW; lia). simpl. lia.
  - apply Forall_forall. intros u (j & Hj & Hlt)%elem_of_take.
    specialize (Hapart key j i u t Hj Hi Hlt). lia.
Qed.

Lemma X18_isolated_events_no_alert_witness :
  alert_rule 1 2 PerDevice (scenario 0 None None None)
  = Ok [st_success "No alerts triggered with current rule."].
Proof.
  apply (X18_isolated_events_no_alert 1 2 PerDevice
           (scenario 0 None None None)).
  - lia.
  - lia.
  - discriminate.
  - intros k i j ti tj Hi Hj Hij.
    destruct (decide (k = "A")) as [->|Hk].
    + change (group_index PerDevice (scenario 0 None None None) "A")
        with [at_hm 0 10 0; at_hm 0 10 2; at_hm 0 10 4] in Hi, Hj.
      destruct i as [|[|[|i]]], j as [|[|[|j]]]; simplify_eq/=; try lia;
        vm_compute; discriminate.
    + assert (group_index PerDevice (scenario 0 None None None) k = []) as Hnil.
      { unfold group_index, group_of.
        change (sort_values timestamp
                  (trigger_events (scenario 0 None None None)))
          with (scenario 0 None None None).
        rewrite filter_none; [done|].
        apply Forall_forall. intros r Hr. unfold scenario in Hr.
        rewrite !elem_of_cons, elem_of_nil in Hr.
        destruct Hr as [->|[->|[->|[]]]]; simpl; congruence. }
      rewrite Hnil in Hi. done.
Defined.

(** X19: alerts are not merged into episodes.  When the trigger events
    of a group all lie within one window of each other, every event
    from the [threshold]-th on gets its own alert: with [n] events in
    the group the page shows [n - (threshold - 1)] alerts for it (none
    when the threshold is above [n]), at the times of those events. *)
Theorem X19_one_alert_per_event_in_a_burst
    (window_min threshold : Z) (scope : Scope) (filtered : list Row)
    (k : string) :
  1 ≤ window_min →
  1 ≤ threshold →
  (∀ r1 r2,
     r1 ∈ filter (λ r, column scope r = Some k) (trigger_events filtered) →
     r2 ∈ filter (λ r, column scope r = Some k) (trigger_events filtered) →
     timestamp r2 - minutes window_min < timestamp r1) →
  ∃ page,
    alert_rule window_min threshold scope filtered = Ok page
    ∧ alert_event <$> filter (λ a, key_value a = k) (shown_alerts page)
      ≡ₚ (λ t, (t, k))
           <$> drop (Z.to_nat (threshold - 1)) (group_index scope filtered k)
    ∧ length (filter (λ a, key_value a = k) (shown_alerts page))
      = (length (filter (λ r, column scope r = Some k)
                   (trigger_events filtered))
         - Z.to_nat (threshold - 1))%nat.
Proof.
  intros HW Hth Hdense.
  destruct (alert_rule_shown window_min threshold scope filtered)
    as (page & Hpage & Hshown).
  exists page. split; [done|].
  assert (filter (λ a, key_value a = k) (shown_alerts page)
          ≡ₚ new_alert window_min threshold scope k
               <$> drop (Z.to_nat (threshold - 1))
                        (group_index scope filtered k)) as Hp.
  { rewrite Hshown, sort_values_Permutation, filter_key_all_alerts.
    rewrite group_alerts_dense; [done| |done..|].
    - apply group_index_is_ascending.
    - intros r1 r2 Hr1 Hr2. unfold group_of in Hr1, Hr2.
      rewrite sort_values_Permutation in Hr1, Hr2. by apply Hdense. }
  split.
  - rewrite Hp, <-list_fmap_compose. done.
  - rewrite Hp, length_fmap, length_drop. unfold group_index, group_of.
    by rewrite length_fmap, sort_values_Permutation.
Qed.

Lemma X19_one_alert_per_event_in_a_burst_witness :
  ∃ page,
    alert_rule 5 2 PerDevice (scenario 0 None None None) = Ok page
    ∧ alert_event <$> filter (λ a, key_value a = "A") (shown_alerts page)
      ≡ₚ (λ t, (t, "A"))
           <$> drop (Z.to_nat (2 - 1))
                 (group_index PerDevice (scenario 0 None None None) "A")
    ∧ length (filter (λ a, key_value a = "A") (shown_alerts page))
      = (length (filter (λ r, column PerDevice r = Some "A")
                   (trigger_events (scenario 0 None None None)))
         - Z.to_nat (2 - 1))%nat.
Proof.
  apply (X19_one_alert_per_event_in_a_burst 5 2 PerDevice
           (scenario 0 None None None) "A").
  - lia.
  - lia.
  - intros r1 r2 Hr1 Hr2.
    change (filter (λ r, column PerDevice r = Some "A")
              (trigger_events (scenario 0 None None None)))
      with (scenario 0 None None None) in Hr1, Hr2.
    unfold scenario in Hr1, Hr2.
    rewrite !elem_of_cons, elem_of_nil in Hr1, Hr2.
    destruct Hr1 as [->|[->|[->|[]]]], Hr2 as [->|[->|[->|[]]]];
      vm_compute; reflexivity.
Defined.

(** X20: the alert rule never fails, and its part of the page is one of
    three: the notice that there are no trigger events, when there are
    none; the message that no alert was triggered; or the error banner
    with a table of alerts.  The number in the banner is the number of
    rows of the table, which is not empty and is in ascending order of
    time. *)
Theorem X20_alert_rule_page
    (window_min threshold : Z) (scope : Scope) (filtered : list Row) :
  (trigger_events filtered = []
   ∧ alert_rule window_min threshold scope filtered
     = Ok [st_info
             "No emulator_detected events in the current filtered dataset."])
  ∨ (trigger_events filtered ≠ []
     ∧ alert_rule window_min threshold scope filtered
       = Ok [st_success "No alerts triggered with current rule."])
  ∨ (∃ table,
       trigger_events filtered ≠ []
       ∧ table ≠ []
       ∧ StronglySorted (by_time time) table
       ∧ alert_rule window_min threshold scope filtered
         = Ok [st_error ("ALERTS TRIGGERED: "
                         +:+ str (Z.of_nat (length table)));
               st_dataframe table]).
Proof.
  destruct (trigger_events filtered) as [|r base] eqn:Hbase.
  - left. split; [done|]. unfold alert_rule. by rewrite Hbase.
  - right.
    assert (trigger_events filtered ≠ []) as Hne by by rewrite Hbase.
    rewrite <-Hbase. rewrite alert_rule_nonempty by done.
    destruct (all_alerts window_min threshold scope filtered)
      as [|a alerts] eqn:Halerts.
    + left. done.
    + right. exists (sort_values time (a :: alerts)).
      assert (length (sort_values time (a :: alerts)) = length (a :: alerts))
        as Hlen by by rewrite sort_values_Permutation.
      split; [done|]. split; [|split].
      * intros Hnil. by rewrite Hnil in Hlen.
      * apply sort_values_sorted.
      * unfold render. by rewrite Hlen.
Qed.

(** X21: the alerts do not depend on the order of the rows of the
    table: two tables with the same rows give the same page. *)
Theorem X21_row_order_irrelevant
    (window_min threshold : Z) (scope : Scope) (filtered1 filtered2 : list Row) :
  filtered1 ≡ₚ filtered2 →
  alert_rule window_min threshold scope filtered1
  = alert_rule window_min threshold scope filtered2.
Proof.
  intros Hp.
  assert (trigger_events filtered1 ≡ₚ trigger_events filtered2) as Hbase
    by (unfold trigger_events; by rewrite Hp).
  destruct (trigger_events filtered1) as [|r base] eqn:Hbase1.
  - apply Permutation_nil_l in Hbase.
    unfold alert_rule. by rewrite Hbase1, <-Hbase.
  - rewrite !alert_rule_nonempty.
    + by rewrite (all_alerts_Permutation _ _ _ filtered1 filtered2).
    + intros Hnil. rewrite Hnil in Hbase. by apply Permutation_nil_r in Hbase.
    + by rewrite Hbase1.
Qed.

Lemma X21_row_order_irrelevant_witness :
  alert_rule 5 3 PerDevice (scenario 0 None None None)
  = alert_rule 5 3 PerDevice (reverse (scenario 0 None None None)).
Proof.
  apply (X21_row_order_irrelevant 5 3 PerDevice (scenario 0 None None None)
           (reverse (scenario 0 None None None))).
  symmetry. apply reverse_Permutation.
Defined.

(** X22: groups do not interact: the alerts of a key depend only on the
    trigger events that carry this key.  Two tables with the same such
    events give the same alerts for it, whatever else they hold. *)
Theorem X22_groups_independent
    (window_min threshold : Z) (scope : Scope) (filtered1 filtered2 : list Row)
    (k : string) :
  filter (λ r, column scope r = Some k) (trigger_events filtered1)
  ≡ₚ filter (λ r, column scope r = Some k) (trigger_events filtered2) →
  ∃ page1 page2,
    alert_rule window_min threshold scope filtered1 = Ok page1
    ∧ alert_rule window_min threshold scope filtered2 = Ok page2
    ∧ filter (λ a, key_value a = k) (shown_alerts page1)
      ≡ₚ filter (λ a, key_value a = k) (shown_alerts page2).
Proof.
  intros Hp.
  destruct (alert_rule_shown window_min threshold scope filtered1)
    as (page1 & Hpage1 & Hshown1).
  destruct (alert_rule_shown window_min threshold scope filtered2)
    as (page2 & Hpage2 & Hshown2).
  exists page1, page2. split; [done|]. split; [done|].
  rewrite Hshown1, Hshown2, !sort_values_Permutation, !filter_key_all_alerts.
  unfold group_alerts. simpl.
  assert (timestamp <$> group_of (column scope)
            (sort_values timestamp (trigger_events filtered1)) k
          = timestamp <$> group_of (column scope)
              (sort_values timestamp (trigger_events filtered2)) k) as ->;
    [|done].
  apply (StronglySorted_unique Z.le).
  - apply Sorted_StronglySorted; [apply _|]. apply group_index_is_ascending.
  - apply Sorted_StronglySorted; [apply _|]. apply group_index_is_ascending.
  - unfold group_of. by rewrite !sort_values_Permutation, Hp.
Qed.

Lemma X22_groups_independent_witness :
  ∃ page1 page2,
    alert_rule 5 2 PerDevice tie_rows = Ok page1
    ∧ alert_rule 5 2 PerDevice
        (mkRow (at_hm 0 10 0) "emulator_detected" None (Some "B") :: tie_rows)
      = Ok page2
    ∧ filter (λ a, key_value a = "A") (shown_alerts page1)
      ≡ₚ filter (λ a, key_value a = "A") (shown_alerts page2).
Proof.
  apply (X22_groups_independent 5 2 PerDevice tie_rows
           (mkRow (at_hm 0 10 0) "emulator_detected" None (Some "B")
            :: tie_rows) "A").
  vm_compute. reflexivity.
Defined.

Lemma X9_drill_down_no_device_witness :
  (dd_info "No events for the selected device."
   ∈ drill_down None keyless_rows
   ↔ keyless_rows ≠ [] ∧ ∀ r, r ∈ keyless_rows → device r = None)
  ∧ (keyless_rows ≠ [] → (∀ r, r ∈ keyless_rows → device r = None) →
     drill_down None keyless_rows
     = [dd_caption "0 events for: None";
        dd_info "No events for the selected device."]).
Proof.
  apply (X9_drill_down_no_device keyless_rows None).
  vm_compute. reflexivity.
Defined.
